(** * Boggle game server: room registry and per-room state machine

    A shallow embedding of [BoggleGame.Server]: the models of
    [Models/GameModels.cs], the registry [Services/GameService.cs], the
    board generator [Services/LetterGenerator.cs] and the hub operations of
    [Hubs/GameHub.cs] that touch the registry, followed by the properties
    of the room lifecycle.

    Conventions.
    - C# [string] is [string]; [char] is [ascii].  Case mapping is the
      ASCII one (characters outside [a-z] have no upper case here).
    - C# [int] is a [Z] normalised by [to_int32] after every arithmetic
      operation (unchecked context: two's complement wrap-around).
    - [DateTime] is a [Z] number of ticks (100 ns); [DateTime.UtcNow] is
      a parameter [now] of the operation that reads the clock.
    - [System.Random] is a stream of raw draws, a parameter of the
      operation that rolls.
    - [ConcurrentDictionary] is a [gmap]; the operations are modelled as
      they run one after another (no interleaving inside an operation).
    - [Dictionary<string, Player>] is modelled with its slot array and
      free list, because [Keys.First()] observes the slot order. *)

From stdpp Require Import gmap strings list fin_maps.
From Stdlib Require Import ZArith.
From Stdlib Require Import Ascii.

Local Open Scope string_scope.
Local Open Scope list_scope.
Local Open Scope Z_scope.

(* ================================================================== *)
(** ** Characters, strings and machine integers *)

Definition Int32_MaxValue : Z := 2147483647.
Definition Int32_MinValue : Z := -2147483648.

(** Two's complement normalisation of an [int] result. *)
Definition to_int32 (z : Z) : Z := (z + 2 ^ 31) mod 2 ^ 32 - 2 ^ 31.

Definition is_int32 (z : Z) : Prop := Int32_MinValue ≤ z ≤ Int32_MaxValue.

(** [char.ToUpperInvariant] restricted to ASCII. *)
Definition char_ToUpper (c : ascii) : ascii :=
  let n := nat_of_ascii c in
  if ((97 <=? n) && (n <=? 122))%nat then ascii_of_nat (n - 32) else c.

(** [string.ToUpper()]. *)
Fixpoint ToUpper (s : string) : string :=
  match s with
  | EmptyString => EmptyString
  | String c s' => String (char_ToUpper c) (ToUpper s')
  end.

(** [a.Equals(b, StringComparison.OrdinalIgnoreCase)]. *)
Definition Equals_OrdinalIgnoreCase (a b : string) : bool :=
  bool_decide (ToUpper a = ToUpper b).

(** [s.Length], an [int]. *)
Definition Length (s : string) : Z := Z.of_nat (String.length s).

(** [s[i]]; the callers below only index in range. *)
Definition char_at (s : string) (i : nat) : ascii :=
  match String.get i s with
  | Some c => c
  | None => zero
  end.

(** [new string(chars)]. *)
Definition string_of_chars (cs : list ascii) : string :=
  fold_right String EmptyString cs.

(* ================================================================== *)
(** ** System.Random as an oracle *)

(** The [i]-th raw draw of a generator. *)
Definition Random : Type := nat → Z.

(** [random.Next()] on the [i]-th call: a non-negative [int]. *)
Definition Next (random : Random) (i : nat) : Z :=
  random i mod Int32_MaxValue.

(** [random.Next(n)] on the [i]-th call: a value in [[0, n)]. *)
Definition NextBelow (random : Random) (i : nat) (n : nat) : nat :=
  Z.to_nat (random i mod Z.of_nat n).

(* ================================================================== *)
(** ** System.Collections.Generic.Dictionary<string, V>

    The runtime keeps the entries in an array of slots.  [Remove] vacates
    the slot of the key and pushes its index on a free list; adding a new
    key pops the most recently freed slot, or appends a slot when the free
    list is empty; assigning an existing key overwrites its slot in place.
    Enumeration ([Keys], [Values]) walks the slots by index and skips the
    vacated ones. *)

Module Dictionary.
Section Dict.
Context {V : Type}.

Record t : Type := mk {
  entries : list (option (string * V));
  freeList : list nat
}.

(** [new Dictionary<string, V>()] *)
Definition empty : t := mk [] [].

Definition slot_has (k : string) (e : option (string * V)) : bool :=
  match e with
  | Some (k', _) => bool_decide (k' = k)
  | None => false
  end.

(** Index of the slot that holds [k]. *)
Fixpoint find_slot (k : string) (es : list (option (string * V))) : option nat :=
  match es with
  | [] => None
  | e :: es' => if slot_has k e then Some 0%nat else S <$> find_slot k es'
  end.

(** The occupied slots, in slot order. *)
Definition live (es : list (option (string * V))) : list (string * V) :=
  omap id es.

(** [d.TryGetValue(k, out v)] *)
Definition TryGetValue (d : t) (k : string) : option V :=
  match find_slot k (entries d) with
  | Some i =>
      match entries d !! i with
      | Some (Some (_, v)) => Some v
      | _ => None
      end
  | None => None
  end.

(** [d.ContainsKey(k)] *)
Definition ContainsKey (d : t) (k : string) : bool :=
  bool_decide (is_Some (find_slot k (entries d))).

(** [d[k] = v] *)
Definition set (d : t) (k : string) (v : V) : t :=
  match find_slot k (entries d) with
  | Some i => mk (<[i := Some (k, v)]> (entries d)) (freeList d)
  | None =>
      match freeList d with
      | i :: fl => mk (<[i := Some (k, v)]> (entries d)) fl
      | [] => mk (entries d ++ [Some (k, v)]) []
      end
  end.

(** [d.Remove(k)] *)
Definition Remove (d : t) (k : string) : t :=
  match find_slot k (entries d) with
  | Some i => mk (<[i := None]> (entries d)) (i :: freeList d)
  | None => d
  end.

(** [d.Count]: slots in use minus freed slots. *)
Definition Count (d : t) : nat :=
  (List.length (entries d) - List.length (freeList d))%nat.

(** [d.Keys] and [d.Values], as enumerated. *)
Definition Keys (d : t) : list string := (live (entries d)).*1.
Definition Values (d : t) : list V := (live (entries d)).*2.

(** [foreach (var v in d.Values) mutate(v)] for a reference type [V]:
    every stored value is updated where it sits. *)
Definition update_values (f : V → V) (d : t) : t :=
  mk (fmap (M := list) (fmap (M := option) (prod_map id f)) (entries d)) (freeList d).

(** Mutation of the object stored under [k], reached through [d[k]]. *)
Definition update_at (f : V → V) (k : string) (d : t) : t :=
  match find_slot k (entries d) with
  | Some i =>
      match entries d !! i with
      | Some (Some (k', v)) => mk (<[i := Some (k', f v)]> (entries d)) (freeList d)
      | _ => d
      end
  | None => d
  end.

(** The finite map a dictionary stands for. *)
Definition to_map (d : t) : gmap string V := list_to_map (live (entries d)).

(** Representation invariant of the runtime structure. *)
Record wf (d : t) : Prop := {
  wf_keys : NoDup (Keys d);
  wf_free_nodup : NoDup (freeList d);
  wf_free : ∀ i, i ∈ freeList d → entries d !! i = Some None;
  wf_count : List.length (entries d)
             = (List.length (freeList d) + List.length (Keys d))%nat
}.

End Dict.
Global Arguments t : clear implicits.
End Dictionary.

(* ================================================================== *)
(** ** Models/GameModels.cs *)

(** [char[,]]: a rectangular array stored row by row. *)
Record Array2D : Type := mkArray2D {
  GetLength0 : nat;
  GetLength1 : nat;
  cells : list ascii
}.

(** [new char[rows, cols]]: every cell is the NUL character. *)
Definition new_Array2D (rows cols : nat) : Array2D :=
  mkArray2D rows cols (replicate (rows * cols) zero).

(** [a[i, j]] *)
Definition Array2D_get (a : Array2D) (i j : nat) : ascii :=
  default zero (cells a !! (i * GetLength1 a + j)%nat).

(** [a[i, j] = c]; the callers below only index inside the array. *)
Definition Array2D_set (a : Array2D) (i j : nat) (c : ascii) : Array2D :=
  mkArray2D (GetLength0 a) (GetLength1 a)
            (<[(i * GetLength1 a + j)%nat := c]> (cells a)).

Record Player : Type := mkPlayer {
  ConnectionId : string;
  Username : string;
  Score : Z;
  FoundWords : list string;
  IsReady : bool
}.

(** [new Player { ConnectionId = c, Username = u }] *)
Definition new_Player (c u : string) : Player :=
  mkPlayer c u 0 [] false.

Inductive GameState : Type := Waiting | InProgress | Finished.

Global Instance GameState_eq_dec : EqDecision GameState.
Proof. solve_decision. Defined.

Record GameRoom : Type := mkGameRoom {
  RoomId : string;
  RoomName : string;
  HostConnectionId : string;
  Players : Dictionary.t Player;
  Board : Array2D;
  State : GameState;
  GameStartTime : option Z;
  GameDurationSeconds : Z;
  ValidWords : gset string
}.

Record GameRoomDto : Type := mkGameRoomDto {
  dto_RoomId : string;
  dto_RoomName : string;
  dto_PlayerCount : nat;
  dto_State : GameState;
  dto_HostUsername : string
}.

Record PlayerDto : Type := mkPlayerDto {
  pd_Username : string;
  pd_Score : Z;
  pd_IsReady : bool;
  pd_IsHost : bool
}.

Record GameStateDto : Type := mkGameStateDto {
  gs_RoomId : string;
  gs_RoomName : string;
  gs_Players : list PlayerDto;
  gs_Board : option (list (list ascii));
  gs_State : GameState;
  gs_RemainingSeconds : option Z
}.

(** Field setters of the mutable [GameRoom] and [Player] objects. *)
Definition with_Players (d : Dictionary.t Player) (r : GameRoom) : GameRoom :=
  mkGameRoom (RoomId r) (RoomName r) (HostConnectionId r) d (Board r)
             (State r) (GameStartTime r) (GameDurationSeconds r) (ValidWords r).

Definition with_Host (h : string) (r : GameRoom) : GameRoom :=
  mkGameRoom (RoomId r) (RoomName r) h (Players r) (Board r)
             (State r) (GameStartTime r) (GameDurationSeconds r) (ValidWords r).

Definition with_Board (b : Array2D) (r : GameRoom) : GameRoom :=
  mkGameRoom (RoomId r) (RoomName r) (HostConnectionId r) (Players r) b
             (State r) (GameStartTime r) (GameDurationSeconds r) (ValidWords r).

Definition with_State (s : GameState) (r : GameRoom) : GameRoom :=
  mkGameRoom (RoomId r) (RoomName r) (HostConnectionId r) (Players r) (Board r)
             s (GameStartTime r) (GameDurationSeconds r) (ValidWords r).

Definition with_GameStartTime (t : option Z) (r : GameRoom) : GameRoom :=
  mkGameRoom (RoomId r) (RoomName r) (HostConnectionId r) (Players r) (Board r)
             (State r) t (GameDurationSeconds r) (ValidWords r).

(* ================================================================== *)
(** ** Services/LetterGenerator.cs *)

Module LetterGenerator.

Definition BoggleDice : list string :=
  [ "AAEEGN"; "ABBJOO"; "ACHOPS"; "AFFKPS";
    "AOOTTW"; "CIMOTU"; "DEILRX"; "DELRVY";
    "DISTTY"; "EEGHNW"; "EEINSU"; "EHRTVW";
    "EIOSST"; "ELRTTY"; "HIMNQU"; "HLNNRZ" ].

(** Stable insertion of [x] with key [kx] into a list sorted by key. *)
Fixpoint insert_by_key {A : Type} (kx : Z) (x : A) (l : list (Z * A)) : list (Z * A) :=
  match l with
  | [] => [(kx, x)]
  | (ky, y) :: l' =>
      if kx <? ky then (kx, x) :: l
      else (ky, y) :: insert_by_key kx x l'
  end.

(** [source.OrderBy(keySelector).ToArray()]: the keys are computed once,
    in source order, and the sort is stable. *)
Definition OrderBy {A : Type} (keys : nat → Z) (source : list A) : list A :=
  (foldl (λ acc '(i, x), insert_by_key (keys i) x acc) [] (imap pair source)).*2.

(** [GenerateBoard()]: the sixteen sort keys are drawn first, then one
    face per cell. *)
Definition GenerateBoard (random : Random) : Array2D :=
  let board := new_Array2D 4 4 in
  let shuffledDice := OrderBy (Next random) BoggleDice in
  fst (foldl (λ st row,
         foldl (λ '(board, dieIndex) col,
                  let die := nth dieIndex shuffledDice "" in
                  let face := char_at die
                                (NextBelow random (16 + dieIndex) (String.length die)) in
                  (Array2D_set board row col face, S dieIndex))
               st (seq 0 4))
       (board, 0%nat) (seq 0 4)).

(** [ToJaggedArray(board)] *)
Definition ToJaggedArray (board : Array2D) : list (list ascii) :=
  let rows := GetLength0 board in
  let cols := GetLength1 board in
  (λ i, (λ j, Array2D_get board i j) <$> seq 0 cols) <$> seq 0 rows.

(** [LetterWeights]: the initializer of the dictionary, in the order it
    is written.  Nothing is ever removed from it, so its enumeration
    follows this order. *)
Definition LetterWeights : list (ascii * nat) :=
  [ ("A"%char, 9); ("B"%char, 2); ("C"%char, 2); ("D"%char, 4); ("E"%char, 12);
    ("F"%char, 2); ("G"%char, 3); ("H"%char, 2); ("I"%char, 9); ("J"%char, 1);
    ("K"%char, 1); ("L"%char, 4); ("M"%char, 2); ("N"%char, 6); ("O"%char, 8);
    ("P"%char, 2); ("Q"%char, 1); ("R"%char, 6); ("S"%char, 4); ("T"%char, 6);
    ("U"%char, 4); ("V"%char, 2); ("W"%char, 2); ("X"%char, 1); ("Y"%char, 2);
    ("Z"%char, 1) ]%nat.

(** The pool built by the constructor: [weight] copies of every letter. *)
Definition _weightedPool : list ascii :=
  foldl (λ pool '(letter, weight),
           foldl (λ pool (_ : nat), pool ++ [letter]) pool (seq 0 weight))
        [] LetterWeights.

(** [GenerateBoardWeighted()]: one draw per cell. *)
Definition GenerateBoardWeighted (random : Random) : Array2D :=
  let board := new_Array2D 4 4 in
  fst (foldl (λ st row,
         foldl (λ '(board, calls) col,
                  (Array2D_set board row col
                     (default zero
                        (_weightedPool
                           !! NextBelow random calls (List.length _weightedPool))),
                   S calls))
               st (seq 0 4))
       (board, 0%nat) (seq 0 4)).

End LetterGenerator.

(* ================================================================== *)
(** ** Services/GameService.cs *)

(** What a call produces: a returned value or an exception that leaves
    the method. *)
Inductive Outcome (A : Type) : Type :=
  | Returned (a : A)
  | Threw (exception : string).
Global Arguments Returned {A} a.
Global Arguments Threw {A} exception.

(** The two tables of the singleton service.  A [GameRoom] object is
    only ever reachable through the table entry of its own [RoomId], so
    the table holds the objects by value and a mutation of a room object
    is a write at that entry. *)
Record GameService : Type := mkGameService {
  _rooms : gmap string GameRoom;
  _playerRooms : gmap string string  (* connectionId -> roomId *)
}.

Definition new_GameService : GameService := mkGameService ∅ ∅.

Definition with_rooms (m : gmap string GameRoom) (svc : GameService) : GameService :=
  mkGameService m (_playerRooms svc).

Definition with_playerRooms (m : gmap string string) (svc : GameService) : GameService :=
  mkGameService (_rooms svc) m.

Module GameService.

Definition chars : string := "ABCDEFGHJKLMNPQRSTUVWXYZ23456789".

(** [GenerateRoomId()]; [random] is the fresh [new Random()]. *)
Definition GenerateRoomId (random : Random) : string :=
  string_of_chars
    ((λ i, char_at chars (NextBelow random i (String.length chars))) <$> seq 0 6).

Definition CreateRoom (roomName hostConnectionId hostUsername : string)
    (random : Random) (svc : GameService) : GameRoom * GameService :=
  let roomId := GenerateRoomId random in
  let room :=
    {| RoomId := roomId;
       RoomName := roomName;
       HostConnectionId := hostConnectionId;
       Players := Dictionary.empty;
       Board := new_Array2D 4 4;
       State := Waiting;
       GameStartTime := None;
       GameDurationSeconds := 180;
       ValidWords := ∅ |} in
  let room :=
    with_Players (Dictionary.set (Players room) hostConnectionId
                    (new_Player hostConnectionId hostUsername)) room in
  let svc := with_rooms (<[roomId := room]> (_rooms svc)) svc in
  let svc := with_playerRooms (<[hostConnectionId := roomId]> (_playerRooms svc)) svc in
  (room, svc).

Definition JoinRoom (roomId connectionId username : string) (svc : GameService)
    : (bool * string * option GameRoom) * GameService :=
  match _rooms svc !! roomId with
  | None => ((false, "Room not found", None), svc)
  | Some room =>
      if bool_decide (State room ≠ Waiting) then
        ((false, "Game already in progress", None), svc)
      else if (8 <=? Dictionary.Count (Players room))%nat then
        ((false, "Room is full", None), svc)
      else if existsb (λ p, Equals_OrdinalIgnoreCase (Username p) username)
                      (Dictionary.Values (Players room)) then
        ((false, "Username already taken in this room", None), svc)
      else
        let room :=
          with_Players (Dictionary.set (Players room) connectionId
                          (new_Player connectionId username)) room in
        let svc := with_rooms (<[roomId := room]> (_rooms svc)) svc in
        let svc := with_playerRooms (<[connectionId := roomId]> (_playerRooms svc)) svc in
        ((true, "Joined successfully", Some room), svc)
  end.

Definition LeaveRoom (connectionId : string) (svc : GameService)
    : Outcome (bool * option GameRoom * option string) * GameService :=
  match _playerRooms svc !! connectionId with
  | None => (Returned (false, None, None), svc)
  | Some roomId =>
      (* TryRemove succeeded: the index entry is gone from here on *)
      let svc := with_playerRooms (delete connectionId (_playerRooms svc)) svc in
      match _rooms svc !! roomId with
      | None => (Returned (false, None, None), svc)
      | Some room =>
          let room := with_Players (Dictionary.Remove (Players room) connectionId) room in
          let svc := with_rooms (<[roomId := room]> (_rooms svc)) svc in
          if (Dictionary.Count (Players room) =? 0)%nat then
            (Returned (true, None, None),
             with_rooms (delete roomId (_rooms svc)) svc)
          else if bool_decide (HostConnectionId room = connectionId) then
            match Dictionary.Keys (Players room) with
            | [] => (Threw "InvalidOperationException", svc)
            | newHostId :: _ =>
                let room := with_Host newHostId room in
                (Returned (true, Some room, Some newHostId),
                 with_rooms (<[roomId := room]> (_rooms svc)) svc)
            end
          else (Returned (true, Some room, None), svc)
      end
  end.

Definition GetRoom (roomId : string) (svc : GameService) : option GameRoom :=
  _rooms svc !! roomId.

Definition GetRoomByConnectionId (connectionId : string) (svc : GameService)
    : option GameRoom :=
  match _playerRooms svc !! connectionId with
  | None => None
  | Some roomId => GetRoom roomId svc
  end.

(** The loop that resets [Score] and [FoundWords] of a player. *)
Definition reset_round (p : Player) : Player :=
  mkPlayer (ConnectionId p) (Username p) 0 [] (IsReady p).

(** [random] is the stream of [_letterGenerator]'s generator from this
    call on; [now] is [DateTime.UtcNow]. *)
Definition StartGame (connectionId : string) (now : Z) (random : Random)
    (svc : GameService) : (bool * string * option GameRoom) * GameService :=
  match GetRoomByConnectionId connectionId svc with
  | None => ((false, "Room not found", None), svc)
  | Some room =>
      if bool_decide (HostConnectionId room ≠ connectionId) then
        ((false, "Only the host can start the game", None), svc)
      else if (Dictionary.Count (Players room) <? 1)%nat then
        ((false, "Need at least 1 player to start", None), svc)
      else
        let room := with_Board (LetterGenerator.GenerateBoard random) room in
        let room := with_State InProgress room in
        let room := with_GameStartTime (Some now) room in
        let room := with_Players (Dictionary.update_values reset_round (Players room)) room in
        ((true, "Game started", Some room),
         with_rooms (<[RoomId room := room]> (_rooms svc)) svc)
  end.

Definition TicksPerSecond : Z := 10000000.

(** [(int)(now - start).TotalSeconds]: whole seconds, truncated. *)
Definition elapsed_seconds (now start : Z) : Z :=
  to_int32 (Z.quot (now - start) TicksPerSecond).

Definition GetGameState (roomId : string) (now : Z) (svc : GameService)
    : option GameStateDto :=
  match GetRoom roomId svc with
  | None => None
  | Some room =>
      let remainingSeconds :=
        if bool_decide (State room = InProgress) then
          match GameStartTime room with
          | Some start =>
              Some (Z.max 0 (to_int32 (GameDurationSeconds room - elapsed_seconds now start)))
          | None => None
          end
        else None in
      Some {| gs_RoomId := RoomId room;
              gs_RoomName := RoomName room;
              gs_State := State room;
              gs_Board := if bool_decide (State room = InProgress)
                          then Some (LetterGenerator.ToJaggedArray (Board room))
                          else None;
              gs_RemainingSeconds := remainingSeconds;
              gs_Players :=
                (λ p, {| pd_Username := Username p;
                         pd_Score := Score p;
                         pd_IsReady := IsReady p;
                         pd_IsHost := bool_decide (ConnectionId p = HostConnectionId room) |})
                <$> Dictionary.Values (Players room) |}
  end.

Definition EndGame (roomId : string) (svc : GameService) : GameService :=
  match _rooms svc !! roomId with
  | Some room => with_rooms (<[roomId := with_State Finished room]> (_rooms svc)) svc
  | None => svc
  end.

(** The loop body of [ResetRoom]. *)
Definition reset_player (p : Player) : Player :=
  mkPlayer (ConnectionId p) (Username p) 0 [] false.

Definition ResetRoom (roomId : string) (svc : GameService) : GameService :=
  match _rooms svc !! roomId with
  | Some room =>
      let room := with_State Waiting room in
      let room := with_Board (new_Array2D 4 4) room in
      let room := with_GameStartTime None room in
      let room := with_Players (Dictionary.update_values reset_player (Players room)) room in
      with_rooms (<[roomId := room]> (_rooms svc)) svc
  | None => svc
  end.

(** [GetAvailableRooms()].  The enumeration order of a
    [ConcurrentDictionary] is not specified; the rooms are listed here in
    the order of the table's keys. *)
Definition GetAvailableRooms (svc : GameService) : list GameRoomDto :=
  (λ r, {| dto_RoomId := RoomId r;
           dto_RoomName := RoomName r;
           dto_PlayerCount := Dictionary.Count (Players r);
           dto_State := State r;
           dto_HostUsername :=
             match Dictionary.TryGetValue (Players r) (HostConnectionId r) with
             | Some host => Username host
             | None => "Unknown"
             end |})
  <$> filter (λ r, State r = Waiting) (map_to_list (_rooms svc)).*2.

End GameService.

(* ================================================================== *)
(** ** Hubs/GameHub.cs

    The hub methods that read or write the registry.  [connectionId] is
    [Context.ConnectionId]; the messages sent with
    [Clients.Group(..).SendAsync] are returned as a list. *)

Inductive Broadcast : Type :=
  | PlayerLeft (group connectionId : string) (newHostId : option string)
               (gameState : option GameStateDto)
  | ScoreUpdated (group username : string) (score : Z) (wordCount : nat)
  | GameReset (group : string) (gameState : option GameStateDto)
  | GameEnded (group : string) (gameState : option GameStateDto).

(** The anonymous reply objects of the hub methods. *)
Inductive Reply : Type :=
  | Failure (message : string)
  | SuccessScore (score : Z)
  | SuccessState (gameState : option GameStateDto).

Module GameHub.

(** The state change of [OnDisconnectedAsync]. *)
Definition OnDisconnectedAsync (connectionId : string) (now : Z) (svc : GameService)
    : Outcome unit * list Broadcast * GameService :=
  match GameService.LeaveRoom connectionId svc with
  | (Returned (true, Some room, newHostId), svc) =>
      (Returned (),
       [PlayerLeft (RoomId room) connectionId newHostId
                   (GameService.GetGameState (RoomId room) now svc)],
       svc)
  | (Returned _, svc) => (Returned (), [], svc)
  | (Threw e, svc) => (Threw e, [], svc)
  end.

(** Points of a word: [Math.Max(1, word.Length - 2)].  [Length] is a
    non-negative [int], so the subtraction cannot wrap. *)
Definition word_points (word : string) : Z :=
  Z.max 1 (Length word - 2).

(** The credited player: word recorded, score raised. *)
Definition credit (word : string) (player : Player) : Player :=
  mkPlayer (ConnectionId player) (Username player)
           (to_int32 (Score player + word_points word))
           (FoundWords player ++ [ToUpper word])
           (IsReady player).

Definition SubmitWord (connectionId word : string) (svc : GameService)
    : Outcome Reply * list Broadcast * GameService :=
  match GameService.GetRoomByConnectionId connectionId svc with
  | None => (Returned (Failure "Game not in progress"), [], svc)
  | Some room =>
      if bool_decide (State room ≠ InProgress) then
        (Returned (Failure "Game not in progress"), [], svc)
      else
        match Dictionary.TryGetValue (Players room) connectionId with
        | None => (Threw "KeyNotFoundException", [], svc)
        | Some player =>
            if negb (bool_decide (ToUpper word ∈ FoundWords player)) then
              let player := credit word player in
              let room :=
                with_Players (Dictionary.update_at (λ _, player) connectionId
                                (Players room)) room in
              (Returned (SuccessScore (Score player)),
               [ScoreUpdated (RoomId room) (Username player) (Score player)
                             (List.length (FoundWords player))],
               with_rooms (<[RoomId room := room]> (_rooms svc)) svc)
            else
              (Returned (SuccessScore (Score player)), [], svc)
        end
  end.

Definition ResetGame (connectionId : string) (now : Z) (svc : GameService)
    : Reply * list Broadcast * GameService :=
  match GameService.GetRoomByConnectionId connectionId svc with
  | None => (Failure "Not in a room", [], svc)
  | Some room =>
      if bool_decide (HostConnectionId room ≠ connectionId) then
        (Failure "Only the host can reset the game", [], svc)
      else
        let svc := GameService.ResetRoom (RoomId room) svc in
        let gameState := GameService.GetGameState (RoomId room) now svc in
        (SuccessState gameState, [GameReset (RoomId room) gameState], svc)
  end.

(** The action the round timer runs when it fires.  [StartGame] starts
    the timer with [Task.Run] and returns; the timer calls
    [EndGameInternal] on the hub object of that call once the round's
    180 seconds are over.  The hub object is disposed when its call
    returns, and the [Clients] property of a disposed hub throws
    ObjectDisposedException ([Hub.CheckDisposed]).  [_gameService] is a
    field and still usable: the room is ended and its snapshot taken, then
    [Clients.Group(roomId)] throws, so the GameEnded message is not sent. *)
Definition EndGameInternal (roomId : string) (now : Z) (svc : GameService)
    : Outcome unit * list Broadcast * GameService :=
  match GameService.GetRoom roomId svc with
  | None => (Returned (), [], svc)
  | Some room =>
      if bool_decide (State room ≠ InProgress) then (Returned (), [], svc)
      else
        let svc := GameService.EndGame roomId svc in
        let gameState := GameService.GetGameState roomId now svc in
        (Threw "ObjectDisposedException", [], svc)
  end.

(** The reply of [LeaveRoom]: [{ Success = true }] or a failure message. *)
Inductive Ack : Type :=
  | AckSuccess
  | AckFailure (message : string).

(** [LeaveRoom()]; an exception of the registry is caught and reported. *)
Definition LeaveRoom (connectionId : string) (now : Z) (svc : GameService)
    : Ack * list Broadcast * GameService :=
  match GameService.GetRoomByConnectionId connectionId svc with
  | None => (AckFailure "Not in a room", [], svc)
  | Some room =>
      let roomId := RoomId room in
      match GameService.LeaveRoom connectionId svc with
      | (Returned (true, Some updatedRoom, newHostId), svc) =>
          (AckSuccess,
           [PlayerLeft roomId connectionId newHostId
                       (GameService.GetGameState roomId now svc)],
           svc)
      | (Returned _, svc) => (AckSuccess, [], svc)
      | (Threw _, svc) => (AckFailure "Failed to leave room", [], svc)
      end
  end.

(** [GetRooms()] *)
Definition GetRooms (svc : GameService) : list GameRoomDto :=
  GameService.GetAvailableRooms svc.

(** [GetGameState()] *)
Definition GetGameState (connectionId : string) (now : Z) (svc : GameService)
    : option GameStateDto :=
  match GameService.GetRoomByConnectionId connectionId svc with
  | None => None
  | Some room => GameService.GetGameState (RoomId room) now svc
  end.

End GameHub.

(* ================================================================== *)
(** ** Runs of the server *)

(** One call into the registry, with the values the call reads from its
    environment (clock, random generator). *)
Inductive Op : Type :=
  | OpCreateRoom (roomName connectionId username : string) (random : Random)
  | OpJoinRoom (roomId connectionId username : string)
  | OpLeaveRoom (connectionId : string)
  | OpStartGame (connectionId : string) (now : Z) (random : Random)
  | OpResetGame (connectionId : string) (now : Z)
  | OpSubmitWord (connectionId word : string)
  | OpRoundTimer (roomId : string) (now : Z).

Definition step (svc : GameService) (op : Op) : GameService :=
  match op with
  | OpCreateRoom roomName c username random =>
      (GameService.CreateRoom roomName c username random svc).2
  | OpJoinRoom roomId c username => (GameService.JoinRoom roomId c username svc).2
  | OpLeaveRoom c => (GameService.LeaveRoom c svc).2
  | OpStartGame c now random => (GameService.StartGame c now random svc).2
  | OpResetGame c now => (GameHub.ResetGame c now svc).2
  | OpSubmitWord c word => (GameHub.SubmitWord c word svc).2
  | OpRoundTimer roomId now => (GameHub.EndGameInternal roomId now svc).2
  end.

Definition run (ops : list Op) (svc : GameService) : GameService :=
  foldl step svc ops.

(** The states the server can be in. *)
Definition reachable (svc : GameService) : Prop :=
  ∃ ops, run ops new_GameService = svc.

(* ================================================================== *)
(** ** Invariants and vocabulary of the properties *)

(** The session is a member of the room. *)
Definition in_roster (connectionId : string) (room : GameRoom) : Prop :=
  connectionId ∈ Dictionary.Keys (Players room).

(** A 4x4 grid. *)
Definition board_ok (b : Array2D) : Prop :=
  GetLength0 b = 4%nat ∧ GetLength1 b = 4%nat ∧ List.length (cells b) = 16%nat.

(** What every stored room satisfies. *)
Record room_ok (id : string) (room : GameRoom) : Prop := {
  ok_id : RoomId room = id;
  ok_players : Dictionary.wf (Players room);
  ok_nonempty : Dictionary.Keys (Players room) ≠ [];
  ok_scores : map_Forall (λ _ p, is_int32 (Score p)) (Dictionary.to_map (Players room));
  ok_board : board_ok (Board room)
}.

Definition service_ok (svc : GameService) : Prop :=
  ∀ id room, _rooms svc !! id = Some room → room_ok id room.

(** The session index and the rosters agree. *)
Record index_lockstep (svc : GameService) : Prop := {
  index_sound : ∀ c id, _playerRooms svc !! c = Some id →
                ∃ room, _rooms svc !! id = Some room ∧ in_roster c room;
  index_complete : ∀ id room c, _rooms svc !! id = Some room → in_roster c room →
                   _playerRooms svc !! c = Some id
}.

(** The session is on the roster of exactly one room. *)
Definition in_exactly_one_roster (svc : GameService) (c : string) : Prop :=
  ∃ id, (∃ room, _rooms svc !! id = Some room ∧ in_roster c room) ∧
        ∀ id', (∃ room', _rooms svc !! id' = Some room' ∧ in_roster c room') → id' = id.

(** A call that respects the protocol of the client: a session creates or
    joins a room only while it is in no room (or re-joins the room it is
    in), and the code drawn for a new room is not in use. *)
Definition op_disciplined (svc : GameService) (op : Op) : Prop :=
  match op with
  | OpCreateRoom _ c _ random =>
      _playerRooms svc !! c = None ∧
      _rooms svc !! GameService.GenerateRoomId random = None
  | OpJoinRoom roomId c _ =>
      _playerRooms svc !! c = None ∨ _playerRooms svc !! c = Some roomId
  | _ => True
  end.

Fixpoint disciplined (svc : GameService) (ops : list Op) : Prop :=
  match ops with
  | [] => True
  | op :: ops' => op_disciplined svc op ∧ disciplined (step svc op) ops'
  end.

(** The call reports a failure to its caller. *)
Definition failed (svc : GameService) (op : Op) : bool :=
  match op with
  | OpCreateRoom _ _ _ _ => false
  | OpJoinRoom roomId c username =>
      negb (GameService.JoinRoom roomId c username svc).1.1.1
  | OpLeaveRoom c =>
      match (GameService.LeaveRoom c svc).1 with
      | Returned (false, _, _) => true
      | _ => false
      end
  | OpStartGame c now random =>
      negb (GameService.StartGame c now random svc).1.1.1
  | OpResetGame c now =>
      match (GameHub.ResetGame c now svc).1.1 with
      | Failure _ => true
      | _ => false
      end
  | OpSubmitWord c word =>
      match (GameHub.SubmitWord c word svc).1.1 with
      | Returned (Failure _) => true
      | _ => false
      end
  | OpRoundTimer _ _ => false
  end.

(* ================================================================== *)
(** ** Scenarios used to exercise the properties *)

Module Scenario.

(** A generator that always draws 0 (room code "AAAAAA"), one that
    always draws 1 (room code "BBBBBB"), and two dice streams. *)
Definition zeros : Random := λ _, 0.
Definition ones : Random := λ _, 1.
Definition dice_a : Random := λ i, Z.of_nat i * 7919 + 13.
Definition dice_b : Random := λ i, Z.of_nat i * 104729 + 5.

(** alice creates "Word Warriors". *)
Definition lobby : GameService :=
  run [OpCreateRoom "Word Warriors" "c1" "alice" zeros] new_GameService.

(** bob joins. *)
Definition two_players : GameService :=
  run [OpJoinRoom "AAAAAA" "c2" "bob"] lobby.

(** alice starts the round at tick 0. *)
Definition playing : GameService :=
  run [OpStartGame "c1" 0 dice_a] two_players.

(** bob has found "CAT". *)
Definition scored : GameService :=
  run [OpSubmitWord "c2" "cat"] playing.

(** The round timer has fired after 180 seconds. *)
Definition finished : GameService :=
  run [OpRoundTimer "AAAAAA" 1800000000] scored.

(** alice has reset the room. *)
Definition reset : GameService :=
  run [OpResetGame "c1" 1900000000] finished.

(** A second room is created with the code of the first one and its
    creator leaves again: the code is gone, alice is still indexed. *)
Definition orphaned : GameService :=
  run [OpCreateRoom "Night Owls" "c2" "bob" zeros; OpLeaveRoom "c2"] lobby.

(** alice creates a second room without leaving the first. *)
Definition two_rooms : GameService :=
  run [OpCreateRoom "Night Owls" "c1" "alice" ones] two_players.

(** carol joins after bob; bob leaves; then dave joins. *)
Definition bob_left : GameService :=
  run [OpJoinRoom "AAAAAA" "c3" "carol"; OpLeaveRoom "c2"] two_players.

Definition dave_joined : GameService :=
  run [OpJoinRoom "AAAAAA" "c4" "dave"] bob_left.

(** Eight players in the waiting room. *)
Definition full_room : GameService :=
  run [OpJoinRoom "AAAAAA" "c3" "carol"; OpJoinRoom "AAAAAA" "c4" "dave";
       OpJoinRoom "AAAAAA" "c5" "erin"; OpJoinRoom "AAAAAA" "c6" "frank";
       OpJoinRoom "AAAAAA" "c7" "grace"; OpJoinRoom "AAAAAA" "c8" "heidi"]
      two_players.

End Scenario.

(* ================================================================== *)
(** ** Vocabulary of the further properties *)

(** The room as [StartGame] leaves it. *)
Definition started_room (now : Z) (random : Random) (room : GameRoom) : GameRoom :=
  let room := with_Board (LetterGenerator.GenerateBoard random) room in
  let room := with_State InProgress room in
  let room := with_GameStartTime (Some now) room in
  with_Players (Dictionary.update_values GameService.reset_round (Players room)) room.

(** The room as [ResetRoom] leaves it. *)
Definition reset_room (room : GameRoom) : GameRoom :=
  let room := with_State Waiting room in
  let room := with_Board (new_Array2D 4 4) room in
  let room := with_GameStartTime None room in
  with_Players (Dictionary.update_values GameService.reset_player (Players room)) room.

(** The player stored under a session id. *)
Definition player_of (room : GameRoom) (c : string) : option Player :=
  Dictionary.TryGetValue (Players room) c.

(** No two members have the same name up to case. *)
Definition names_unique (room : GameRoom) : Prop :=
  ∀ c1 c2 p1 p2,
    player_of room c1 = Some p1 → player_of room c2 = Some p2 → c1 ≠ c2 →
    ToUpper (Username p1) ≠ ToUpper (Username p2).

(** Points of a list of words. *)
Definition words_points (ws : list string) : Z :=
  foldr (λ w acc, GameHub.word_points w + acc) 0 ws.

(** An upper-case letter. *)
Definition is_upper_letter (c : ascii) : Prop :=
  (65 ≤ nat_of_ascii c ≤ 90)%nat.

(** The characters of a string. *)
Definition chars_of (s : string) : list ascii := String.list_ascii_of_string s.

(** bob's new room draws the code of alice's room and takes its place in
    the table; bob starts a round.  alice is still indexed to the code. *)
Definition replaced_room : GameService :=
  run [OpCreateRoom "Night Owls" "c2" "bob" Scenario.zeros;
       OpStartGame "c2" 0 Scenario.dice_a] Scenario.lobby.


(* ================================================================== *)
(** * Properties *)

(** ** Machine integers and strings *)

Lemma to_int32_id z : is_int32 z → to_int32 z = z.
Proof.
  unfold is_int32, to_int32, Int32_MinValue, Int32_MaxValue. intros Hz.
  rewrite Z.mod_small; lia.
Qed.

Lemma ToUpper_length s : String.length (ToUpper s) = String.length s.
Proof. induction s as [|c s IH]; simpl; congruence. Qed.

Lemma char_ToUpper_idemp c : char_ToUpper (char_ToUpper c) = char_ToUpper c.
Proof.
  destruct c as [[] [] [] [] [] [] [] []]; reflexivity.
Qed.

Lemma ToUpper_idemp s : ToUpper (ToUpper s) = ToUpper s.
Proof.
  induction s as [|c s IH]; simpl; [done|].
  by rewrite char_ToUpper_idemp, IH.
Qed.

(** ** The dictionary refines a finite map *)

Section DictionaryFacts.
Context {V : Type}.
Implicit Types (d : Dictionary.t V) (es : list (option (string * V))).
Implicit Types (k : string) (v : V).

Import Dictionary.

Lemma live_middle es i e :
  es !! i = Some e →
  live es = live (take i es) ++ option_list e ++ live (drop (S i) es).
Proof.
  intros Hi. rewrite <- (take_drop_middle es i e Hi) at 1.
  unfold live. rewrite omap_app. simpl. by destruct e.
Qed.

Lemma live_insert es i x :
  (i < List.length es)%nat →
  live (<[i := x]> es) = live (take i es) ++ option_list x ++ live (drop (S i) es).
Proof.
  intros Hi. rewrite insert_take_drop by done.
  unfold live. rewrite omap_app. simpl. by destruct x.
Qed.

Lemma live_snoc es x : live (es ++ [x]) = live es ++ option_list x.
Proof. unfold live. rewrite omap_app. simpl. by destruct x. Qed.

(** [find_slot] returns the first slot that holds the key. *)
Lemma find_slot_spec k es :
  match find_slot k es with
  | Some i => (∃ v, es !! i = Some (Some (k, v))) ∧ k ∉ (live (take i es)).*1
  | None => k ∉ (live es).*1
  end.
Proof.
  induction es as [|e es IH]; simpl.
  - apply not_elem_of_nil.
  - destruct e as [[k' v']|]; simpl.
    + case_bool_decide as Hk; simpl.
      * subst. split; [by eexists|]. apply not_elem_of_nil.
      * destruct (find_slot k es) as [i|]; simpl.
        -- destruct IH as [Hv Hn]. split; [done|].
           rewrite not_elem_of_cons. split; [congruence|done].
        -- rewrite not_elem_of_cons. split; [congruence|done].
    + destruct (find_slot k es) as [i|]; simpl; done.
Qed.

Lemma find_slot_Some k es i :
  find_slot k es = Some i →
  (∃ v, es !! i = Some (Some (k, v))) ∧ k ∉ (live (take i es)).*1.
Proof. intros H. pose proof (find_slot_spec k es) as Hs. by rewrite H in Hs. Qed.

Lemma find_slot_None k es : find_slot k es = None → k ∉ (live es).*1.
Proof. intros H. pose proof (find_slot_spec k es) as Hs. by rewrite H in Hs. Qed.

Lemma find_slot_is_Some k d :
  is_Some (find_slot k (entries d)) ↔ k ∈ Keys d.
Proof.
  unfold Keys. split.
  - intros [i Hi]. destruct (find_slot_Some _ _ _ Hi) as [[v Hv] _].
    rewrite (live_middle _ _ _ Hv). simpl. rewrite fmap_app, elem_of_app. right.
    simpl. apply elem_of_cons. by left.
  - intros Hin. destruct (find_slot k (entries d)) as [i|] eqn:E; [by eexists|].
    by apply find_slot_None in E.
Qed.

(** Reading the dictionary is reading the map. *)
Lemma TryGetValue_to_map d k : TryGetValue d k = to_map d !! k.
Proof.
  unfold TryGetValue, to_map.
  destruct (find_slot k (entries d)) as [i|] eqn:E.
  - destruct (find_slot_Some _ _ _ E) as [[v Hv] Hn].
    rewrite Hv, (live_middle _ _ _ Hv). simpl.
    rewrite list_to_map_app, lookup_union_r
      by by apply not_elem_of_list_to_map.
    by rewrite list_to_map_cons, lookup_insert_eq.
  - symmetry. apply not_elem_of_list_to_map. by apply find_slot_None.
Qed.

Lemma Keys_to_map d k : k ∈ Keys d ↔ is_Some (to_map d !! k).
Proof.
  unfold Keys, to_map. rewrite <- not_eq_None_Some.
  rewrite <- not_elem_of_list_to_map. split; [tauto|].
  intros H. by destruct (decide (k ∈ (live (entries d)).*1)).
Qed.

Lemma Keys_TryGetValue d k : k ∈ Keys d ↔ is_Some (TryGetValue d k).
Proof. by rewrite TryGetValue_to_map, Keys_to_map. Qed.

Lemma ContainsKey_Keys d k : ContainsKey d k = true ↔ k ∈ Keys d.
Proof.
  unfold ContainsKey. rewrite bool_decide_eq_true. apply find_slot_is_Some.
Qed.

Lemma Values_to_map d v :
  wf d → v ∈ Values d ↔ ∃ k, to_map d !! k = Some v.
Proof.
  intros Hwf. unfold Values, to_map. rewrite list_elem_of_fmap. split.
  - intros [[k v'] [-> Hin]]. exists k. simpl.
    apply elem_of_list_to_map_1; [apply Hwf|done].
  - intros [k Hk]. exists (k, v). split; [done|].
    by apply elem_of_list_to_map_2.
Qed.

Lemma Count_Keys d : wf d → Count d = List.length (Keys d).
Proof. intros Hwf. unfold Count. rewrite (wf_count _ Hwf). lia. Qed.

Lemma Count_zero d : wf d → Count d = 0%nat ↔ Keys d = [].
Proof.
  intros Hwf. rewrite Count_Keys by done. split.
  - apply nil_length_inv.
  - by intros ->.
Qed.

Lemma Count_size d : wf d → Count d = size (to_map d).
Proof.
  intros Hwf. rewrite Count_Keys by done. unfold to_map, Keys.
  rewrite map_size_list_to_map by apply Hwf. by rewrite length_fmap.
Qed.

Lemma wf_empty : wf (@empty V).
Proof. split; simpl; [constructor|constructor|inversion 1|done]. Qed.

Lemma to_map_empty : to_map (@empty V) = ∅.
Proof. done. Qed.

Lemma list_to_map_middle (A B : list (string * V)) k v :
  k ∉ A.*1 →
  list_to_map (A ++ (k, v) :: B) =@{gmap string V} <[k := v]> (list_to_map (A ++ B)).
Proof.
  intros HA. rewrite !list_to_map_app, list_to_map_cons.
  symmetry. apply insert_union_r. by apply not_elem_of_list_to_map.
Qed.

Lemma filter_all_ne (l : list string) k : k ∉ l → filter (λ x, x ≠ k) l = l.
Proof.
  induction l as [|x l IH]; [done|].
  rewrite not_elem_of_cons. intros [Hx Hl].
  rewrite filter_cons_True by done. by rewrite IH.
Qed.

(** *** [d[k] = v] *)

Lemma set_spec d k v :
  wf d →
  wf (set d k v) ∧ to_map (set d k v) = <[k := v]> (to_map d) ∧
  (k ∈ Keys d → Keys (set d k v) = Keys d) ∧
  (k ∉ Keys d → freeList d = [] → Keys (set d k v) = Keys d ++ [k]) ∧
  (k ∉ Keys d → List.length (Keys (set d k v)) = S (List.length (Keys d))).
Proof.
  intros [Hk Hn Hf Hc]. unfold set.
  destruct (find_slot k (entries d)) as [i|] eqn:E.
  - (* the key is present: its slot is overwritten *)
    destruct (find_slot_Some _ _ _ E) as [[v0 Hv] HA].
    assert (i < List.length (entries d))%nat as Hi by by eapply lookup_lt_Some.
    pose proof (live_middle _ _ _ Hv) as Hl.
    pose proof (live_insert (entries d) i (Some (k, v)) Hi) as Hl'.
    simpl in Hl, Hl'.
    assert (Keys (mk (<[i:=Some (k, v)]> (entries d)) (freeList d)) = Keys d) as HK.
    { unfold Keys. simpl. by rewrite Hl, Hl', !fmap_app. }
    assert (k ∈ Keys d) as Hin.
    { unfold Keys. rewrite Hl, fmap_app, elem_of_app. right. by left. }
    split; [|split; [|split; [done|split; done]]].
    + split; simpl.
      * by rewrite HK.
      * done.
      * intros j Hj. specialize (Hf j Hj).
        rewrite list_lookup_insert_ne; [done|]. intros ->. congruence.
      * rewrite length_insert, HK. done.
    + unfold to_map. simpl. rewrite Hl, Hl'.
      rewrite !list_to_map_middle by done. by rewrite insert_insert_eq.
  - apply find_slot_None in E. change (k ∉ Keys d) in E.
    destruct (freeList d) as [|i fl] eqn:Efl.
    + (* no vacated slot: a slot is appended *)
      assert (Keys (mk (entries d ++ [Some (k, v)]) []) = Keys d ++ [k]) as HK.
      { unfold Keys. simpl. by rewrite live_snoc, fmap_app. }
      split; [|split; [|split; [done|split]]].
      * split; simpl.
        -- rewrite HK. apply NoDup_app. split; [done|].
           split; [|apply NoDup_singleton].
           intros x Hx ->%list_elem_of_singleton. done.
        -- constructor.
        -- inversion 1.
        -- rewrite HK, !length_app. simpl in *. lia.
      * unfold to_map. simpl. rewrite live_snoc. simpl.
        rewrite list_to_map_middle by done. by rewrite app_nil_r.
      * done.
      * intros _. rewrite HK, length_app. simpl. lia.
    + (* the most recently vacated slot is taken *)
      assert (entries d !! i = Some None) as Hv by (apply Hf; by left).
      assert (i < List.length (entries d))%nat as Hi by by eapply lookup_lt_Some.
      apply NoDup_cons in Hn as [Hi_fl Hn].
      pose proof (live_middle _ _ _ Hv) as Hl.
      pose proof (live_insert (entries d) i (Some (k, v)) Hi) as Hl'.
      simpl in Hl, Hl'.
      set (A := live (take i (entries d))) in *.
      set (B := live (drop (S i) (entries d))) in *.
      assert (Keys d = A.*1 ++ B.*1) as HK0.
      { unfold Keys. by rewrite Hl, fmap_app. }
      assert (Keys (mk (<[i:=Some (k, v)]> (entries d)) fl) = A.*1 ++ k :: B.*1) as HK.
      { unfold Keys. simpl. by rewrite Hl', fmap_app. }
      assert ((k ∉ A.*1) ∧ (k ∉ B.*1)) as [EA EB].
      { apply not_elem_of_app. by rewrite <- HK0. }
      rewrite HK0 in Hk.
      split; [|split; [|split; [done|split]]].
      * split; simpl.
        -- rewrite HK.
           apply NoDup_app in Hk as (HA1 & HA2 & HA3).
           apply NoDup_app. split; [done|]. split.
           ++ intros x Hx [->|Hx']%elem_of_cons; [done|]. by eapply HA2.
           ++ by apply NoDup_cons.
        -- done.
        -- intros j Hj.
           rewrite list_lookup_insert_ne; [apply Hf; by right|]. by intros ->.
        -- rewrite length_insert, HK, Hc, HK0, !length_app. simpl. lia.
      * unfold to_map. simpl. rewrite Hl, Hl'. by apply list_to_map_middle.
      * done.
      * intros _. rewrite HK, HK0, !length_app. simpl. lia.
Qed.

Lemma wf_set d k v : wf d → wf (set d k v).
Proof. intros H. by apply set_spec. Qed.

Lemma to_map_set d k v : wf d → to_map (set d k v) = <[k := v]> (to_map d).
Proof. intros H. by apply set_spec. Qed.

Lemma Count_set_new d k v :
  wf d → k ∉ Keys d → Count (set d k v) = S (Count d).
Proof.
  intros Hwf Hk. rewrite !Count_Keys by (try apply wf_set; done).
  by apply set_spec.
Qed.

Lemma Count_set_old d k v :
  wf d → k ∈ Keys d → Count (set d k v) = Count d.
Proof.
  intros Hwf Hk. rewrite !Count_Keys by (try apply wf_set; done).
  destruct (set_spec d k v Hwf) as (_ & _ & -> & _); done.
Qed.

(** While no slot has been vacated, a new key goes to the end. *)
Lemma Keys_set_append d k v :
  wf d → k ∉ Keys d → freeList d = [] → Keys (set d k v) = Keys d ++ [k].
Proof. intros Hwf Hk Hfl. by apply set_spec. Qed.

Lemma Keys_set d k v k' :
  wf d → k' ∈ Keys (set d k v) ↔ k' = k ∨ k' ∈ Keys d.
Proof.
  intros Hwf. rewrite !Keys_to_map, to_map_set by done.
  destruct (decide (k = k')) as [->|Hne].
  - rewrite lookup_insert_eq. split; [by left|by eexists].
  - rewrite lookup_insert_ne by done. split; [by right|].
    intros [->|?]; done.
Qed.

(** *** [d.Remove(k)] *)

Lemma Remove_spec d k :
  wf d →
  wf (Remove d k) ∧ to_map (Remove d k) = delete k (to_map d) ∧
  Keys (Remove d k) = filter (λ x, x ≠ k) (Keys d).
Proof.
  intros Hwf. pose proof Hwf as [Hk Hn Hf Hc]. unfold Remove.
  destruct (find_slot k (entries d)) as [i|] eqn:E.
  - destruct (find_slot_Some _ _ _ E) as [[v0 Hv] HA].
    assert (i < List.length (entries d))%nat as Hi by by eapply lookup_lt_Some.
    pose proof (live_middle _ _ _ Hv) as Hl.
    pose proof (live_insert (entries d) i None Hi) as Hl'.
    simpl in Hl, Hl'.
    set (A := live (take i (entries d))) in *.
    set (B := live (drop (S i) (entries d))) in *.
    assert (Keys d = A.*1 ++ k :: B.*1) as HK0.
    { unfold Keys. by rewrite Hl, fmap_app. }
    assert (Keys (mk (<[i:=None]> (entries d)) (i :: freeList d)) = A.*1 ++ B.*1) as HK.
    { unfold Keys. simpl. by rewrite Hl', fmap_app. }
    rewrite HK0 in Hk.
    apply NoDup_app in Hk as (HA1 & HA2 & [HB1 HB2]%NoDup_cons).
    split; [|split].
    + split; simpl.
      * rewrite HK. apply NoDup_app. split; [done|]. split; [|done].
        intros x Hx Hx'. eapply HA2; [done|]. by right.
      * apply NoDup_cons. split; [|done].
        intros Hin. apply Hf in Hin. congruence.
      * intros j [->|Hj]%elem_of_cons.
        -- by apply list_lookup_insert_eq.
        -- specialize (Hf j Hj). rewrite list_lookup_insert_ne; [done|].
           intros ->. congruence.
      * rewrite length_insert, HK, Hc, HK0, !length_app. simpl. lia.
    + unfold to_map. simpl. rewrite Hl, Hl'.
      rewrite list_to_map_middle by done.
      rewrite delete_insert_eq. symmetry. apply delete_id.
      apply not_elem_of_list_to_map. rewrite fmap_app.
      apply not_elem_of_app. done.
    + rewrite HK, HK0, filter_app, filter_cons_False by (intros ?; done).
      by rewrite !filter_all_ne.
  - apply find_slot_None in E. change (k ∉ Keys d) in E.
    split; [done|]. split.
    + symmetry. apply delete_id. apply eq_None_not_Some.
      by rewrite <- Keys_to_map.
    + by rewrite filter_all_ne.
Qed.

Lemma wf_Remove d k : wf d → wf (Remove d k).
Proof. intros H. by apply Remove_spec. Qed.

Lemma to_map_Remove d k : wf d → to_map (Remove d k) = delete k (to_map d).
Proof. intros H. by apply Remove_spec. Qed.

Lemma Keys_Remove d k :
  wf d → Keys (Remove d k) = filter (λ x, x ≠ k) (Keys d).
Proof. intros H. by apply Remove_spec. Qed.

Lemma Keys_Remove_elem d k k' :
  wf d → k' ∈ Keys (Remove d k) ↔ k' ≠ k ∧ k' ∈ Keys d.
Proof. intros H. rewrite Keys_Remove by done. by rewrite list_elem_of_filter. Qed.

(** *** In-place updates of the stored objects *)

Lemma live_update_values (f : V → V) es :
  live (fmap (M := list) (fmap (M := option) (prod_map id f)) es)
  = prod_map id f <$> live es.
Proof.
  unfold live. induction es as [|[[k v]|] es IH]; simpl; [done| |done].
  by f_equal.
Qed.

Lemma Keys_update_values (f : V → V) d : Keys (update_values f d) = Keys d.
Proof.
  unfold Keys, update_values. simpl. rewrite live_update_values.
  rewrite <- list_fmap_compose. by apply list_fmap_ext; intros ? [].
Qed.

Lemma Values_update_values (f : V → V) d :
  Values (update_values f d) = f <$> Values d.
Proof.
  unfold Values, update_values. simpl. rewrite live_update_values.
  rewrite <- !list_fmap_compose. by apply list_fmap_ext; intros ? [].
Qed.

Lemma Count_update_values (f : V → V) d : Count (update_values f d) = Count d.
Proof. unfold Count, update_values. simpl. by rewrite length_fmap. Qed.

Lemma to_map_update_values (f : V → V) d :
  to_map (update_values f d) = f <$> to_map d.
Proof.
  unfold to_map, update_values. simpl. rewrite live_update_values.
  apply list_to_map_fmap.
Qed.

Lemma wf_update_values (f : V → V) d : wf d → wf (update_values f d).
Proof.
  intros [Hk Hn Hf Hc]. split.
  - by rewrite Keys_update_values.
  - done.
  - intros i Hi. simpl. rewrite list_lookup_fmap, (Hf i Hi). done.
  - rewrite Keys_update_values. simpl. by rewrite length_fmap.
Qed.

Lemma update_at_set (f : V → V) k d :
  update_at f k d =
  match TryGetValue d k with
  | Some v => set d k (f v)
  | None => d
  end.
Proof.
  unfold update_at, TryGetValue, set.
  destruct (find_slot k (entries d)) as [i|] eqn:E; [|done].
  destruct (find_slot_Some _ _ _ E) as [[v0 Hv] _]. by rewrite Hv.
Qed.

Lemma wf_update_at (f : V → V) k d : wf d → wf (update_at f k d).
Proof.
  intros Hwf. rewrite update_at_set.
  destruct (TryGetValue d k); [by apply wf_set|done].
Qed.

Lemma to_map_update_at (f : V → V) k d :
  wf d → to_map (update_at f k d) = alter f k (to_map d).
Proof.
  intros Hwf. rewrite update_at_set, TryGetValue_to_map.
  destruct (to_map d !! k) as [v|] eqn:E.
  - rewrite to_map_set by done. apply map_eq. intros k'.
    destruct (decide (k = k')) as [->|Hne].
    + by rewrite lookup_insert_eq, lookup_alter_eq, E.
    + by rewrite lookup_insert_ne, lookup_alter_ne.
  - apply map_eq. intros k'.
    destruct (decide (k = k')) as [->|Hne].
    + by rewrite lookup_alter_eq, E.
    + by rewrite lookup_alter_ne.
Qed.

Lemma Keys_update_at (f : V → V) k d : wf d → Keys (update_at f k d) = Keys d.
Proof.
  intros Hwf. rewrite update_at_set.
  destruct (TryGetValue d k) as [v|] eqn:E; [|done].
  apply set_spec; [done|]. apply Keys_TryGetValue. by eexists.
Qed.

Lemma Count_update_at (f : V → V) k d : Count (update_at f k d) = Count d.
Proof.
  unfold update_at, Count.
  destruct (find_slot k (entries d)) as [i|]; [|done].
  destruct (entries d !! i) as [[[k' v]|]|]; simpl; [|done|done].
  by rewrite length_insert.
Qed.

(** The first enumerated key is a key. *)
Lemma Keys_head d k l : Keys d = k :: l → k ∈ Keys d.
Proof. intros ->. by left. Qed.

End DictionaryFacts.

(** ** Every reachable state is well formed *)

Lemma board_ok_new : board_ok (new_Array2D 4 4).
Proof. by repeat split. Qed.

Lemma board_ok_set b i j c : board_ok b → board_ok (Array2D_set b i j c).
Proof.
  intros (H0 & H1 & Hc). repeat split; simpl; [done|done|].
  by rewrite length_insert.
Qed.

Lemma GenerateBoard_ok random : board_ok (LetterGenerator.GenerateBoard random).
Proof.
  unfold LetterGenerator.GenerateBoard.
  generalize (LetterGenerator.OrderBy (Next random) LetterGenerator.BoggleDice).
  intros dice.
  assert (∀ cols st row, board_ok st.1 →
            board_ok (foldl (λ '(board, dieIndex) col,
               (Array2D_set board row col
                  (char_at (nth dieIndex dice "")
                     (NextBelow random (16 + dieIndex)
                        (String.length (nth dieIndex dice "")))),
                S dieIndex)) st cols).1) as Hinner.
  { induction cols as [|col cols IH]; intros [b n] row Hb; simpl; [done|].
    apply IH. simpl. by apply board_ok_set. }
  assert (∀ rows st, board_ok st.1 →
            board_ok (foldl (λ st row,
               foldl (λ '(board, dieIndex) col,
                 (Array2D_set board row col
                    (char_at (nth dieIndex dice "")
                       (NextBelow random (16 + dieIndex)
                          (String.length (nth dieIndex dice "")))),
                  S dieIndex)) st (seq 0 4)) st rows).1) as Houter.
  { induction rows as [|row rows IH]; intros st Hst; [done|].
    cbn [foldl]. apply IH. by apply (Hinner (seq 0 4)). }
  apply Houter, board_ok_new.
Qed.

Lemma room_ok_with_Players id room d :
  room_ok id room → Dictionary.wf d → Dictionary.Keys d ≠ [] →
  map_Forall (λ _ p, is_int32 (Score p)) (Dictionary.to_map d) →
  room_ok id (with_Players d room).
Proof. intros [] ???. by split. Qed.

Lemma room_ok_with_Host id room h : room_ok id room → room_ok id (with_Host h room).
Proof. intros []. by split. Qed.

Lemma room_ok_with_State id room s : room_ok id room → room_ok id (with_State s room).
Proof. intros []. by split. Qed.

Lemma room_ok_with_GameStartTime id room t :
  room_ok id room → room_ok id (with_GameStartTime t room).
Proof. intros []. by split. Qed.

Lemma room_ok_with_Board id room b :
  room_ok id room → board_ok b → room_ok id (with_Board b room).
Proof. intros [] ?. by split. Qed.

Lemma is_int32_0 : is_int32 0.
Proof. unfold is_int32, Int32_MinValue, Int32_MaxValue. lia. Qed.

Lemma to_int32_range z : is_int32 (to_int32 z).
Proof.
  unfold is_int32, to_int32, Int32_MinValue, Int32_MaxValue.
  pose proof (Z.mod_pos_bound (z + 2 ^ 31) (2 ^ 32)). lia.
Qed.

Lemma service_ok_insert svc svc' id room :
  service_ok svc → room_ok id room →
  _rooms svc' = <[id := room]> (_rooms svc) → service_ok svc'.
Proof.
  intros Hok Hroom Heq id' room'. rewrite Heq.
  destruct (decide (id = id')) as [->|Hne].
  - rewrite lookup_insert_eq. by intros [= <-].
  - rewrite lookup_insert_ne by done. apply Hok.
Qed.

Lemma service_ok_delete svc svc' id :
  service_ok svc → _rooms svc' = delete id (_rooms svc) → service_ok svc'.
Proof.
  intros Hok Heq id' room'. rewrite Heq.
  intros [_ H]%lookup_delete_Some. by apply Hok.
Qed.

Lemma service_ok_same svc svc' :
  service_ok svc → _rooms svc' = _rooms svc → service_ok svc'.
Proof. intros Hok Heq id room. rewrite Heq. apply Hok. Qed.

Lemma service_ok_new : service_ok new_GameService.
Proof. intros id room. simpl. by rewrite lookup_empty. Qed.

Lemma Keys_nonempty_set {V} (d : Dictionary.t V) k v :
  Dictionary.wf d → Dictionary.Keys (Dictionary.set d k v) ≠ [].
Proof.
  intros Hwf Hnil. assert (k ∈ Dictionary.Keys (Dictionary.set d k v)) as Hin
    by (apply Keys_set; [done|by left]).
  rewrite Hnil in Hin. by apply elem_of_nil in Hin.
Qed.

Lemma new_Player_scores c u : is_int32 (Score (new_Player c u)).
Proof. apply is_int32_0. Qed.

Lemma CreateRoom_ok roomName c u random svc :
  service_ok svc → service_ok (GameService.CreateRoom roomName c u random svc).2.
Proof.
  intros Hok. eapply service_ok_insert; [done| |done].
  split; simpl.
  - done.
  - apply wf_set, wf_empty.
  - apply Keys_nonempty_set, wf_empty.
  - rewrite to_map_set by apply wf_empty.
    apply map_Forall_insert_2; [apply is_int32_0|]. apply map_Forall_empty.
  - apply board_ok_new.
Qed.

Lemma JoinRoom_ok roomId c u svc :
  service_ok svc → service_ok (GameService.JoinRoom roomId c u svc).2.
Proof.
  intros Hok. unfold GameService.JoinRoom.
  destruct (_rooms svc !! roomId) as [room|] eqn:E; [|done].
  repeat case_match; try done. simpl.
  pose proof (Hok _ _ E) as Hr. pose proof Hr as [Hid Hwf Hne Hsc Hb].
  eapply service_ok_insert; [done| |done].
  apply room_ok_with_Players; [done|by apply wf_set|by apply Keys_nonempty_set|].
  rewrite to_map_set by done. apply map_Forall_insert_2; [apply is_int32_0|done].
Qed.

Lemma LeaveRoom_ok c svc :
  service_ok svc → service_ok (GameService.LeaveRoom c svc).2.
Proof.
  intros Hok. unfold GameService.LeaveRoom.
  destruct (_playerRooms svc !! c) as [roomId|] eqn:Ei; [|done]. simpl.
  destruct (_rooms svc !! roomId) as [room|] eqn:E; [|done].
  pose proof (Hok _ _ E) as Hr. pose proof Hr as [Hid Hwf Hne Hsc Hb].
  assert (Dictionary.wf (Dictionary.Remove (Players room) c)) as Hwf'
    by by apply wf_Remove.
  assert (map_Forall (λ _ p, is_int32 (Score p))
            (Dictionary.to_map (Dictionary.Remove (Players room) c))) as Hsc'.
  { rewrite to_map_Remove by done. by apply map_Forall_delete. }
  destruct (Nat.eqb_spec (Dictionary.Count (Dictionary.Remove (Players room) c)) 0)
    as [Hz|Hnz]; simpl.
  - eapply service_ok_delete; [done|]. simpl. by rewrite delete_insert_eq.
  - assert (Dictionary.Keys (Dictionary.Remove (Players room) c) ≠ []) as Hne'
      by by rewrite <- Count_zero.
    assert (room_ok roomId (with_Players (Dictionary.Remove (Players room) c) room))
      as Hr' by by apply room_ok_with_Players.
    case_bool_decide.
    + destruct (Dictionary.Keys (Dictionary.Remove (Players room) c)) eqn:EK; [done|].
      simpl. eapply service_ok_insert; [done| |].
      * apply room_ok_with_Host, Hr'.
      * simpl. by rewrite insert_insert_eq.
    + simpl. by eapply service_ok_insert.
Qed.

Lemma GetRoomByConnectionId_Some c svc room :
  GameService.GetRoomByConnectionId c svc = Some room ↔
  ∃ id, _playerRooms svc !! c = Some id ∧ _rooms svc !! id = Some room.
Proof.
  unfold GameService.GetRoomByConnectionId, GameService.GetRoom.
  destruct (_playerRooms svc !! c) as [id|]; split.
  - intros H. by exists id.
  - by intros (? & [= <-] & ?).
  - done.
  - by intros (? & ? & ?).
Qed.

Lemma GetRoomByConnectionId_stored c svc room :
  service_ok svc → GameService.GetRoomByConnectionId c svc = Some room →
  _rooms svc !! RoomId room = Some room ∧ _playerRooms svc !! c = Some (RoomId room)
  ∧ room_ok (RoomId room) room.
Proof.
  intros Hok (id & Hi & Hr)%GetRoomByConnectionId_Some.
  pose proof (Hok _ _ Hr) as Hroom. pose proof Hroom as [Hid Hwf Hne Hsc Hb].
  subst id. done.
Qed.

Lemma reset_scores_ok (f : Player → Player) d :
  (∀ p, Score (f p) = 0) →
  map_Forall (λ _ p, is_int32 (Score p)) (Dictionary.to_map (Dictionary.update_values f d)).
Proof.
  intros Hf. rewrite to_map_update_values. apply map_Forall_fmap.
  intros k p _. simpl. rewrite Hf. apply is_int32_0.
Qed.

Lemma StartGame_ok c now random svc :
  service_ok svc → service_ok (GameService.StartGame c now random svc).2.
Proof.
  intros Hok. unfold GameService.StartGame.
  destruct (GameService.GetRoomByConnectionId c svc) as [room|] eqn:E; [|done].
  destruct (GetRoomByConnectionId_stored _ _ _ Hok E) as (Hr & _ & Hroom).
  pose proof Hroom as [Hid Hwf Hne Hsc Hb].
  repeat case_match; try done. simpl.
  eapply service_ok_insert; [done| |done].
  split; simpl;
    [done|by apply wf_update_values|by rewrite Keys_update_values
    |by apply reset_scores_ok|apply GenerateBoard_ok].
Qed.

Lemma ResetRoom_ok roomId svc :
  service_ok svc → service_ok (GameService.ResetRoom roomId svc).
Proof.
  intros Hok. unfold GameService.ResetRoom.
  destruct (_rooms svc !! roomId) as [room|] eqn:E; [|done].
  pose proof (Hok _ _ E) as [Hid Hwf Hne Hsc Hb].
  eapply service_ok_insert; [done| |done].
  split; simpl;
    [done|by apply wf_update_values|by rewrite Keys_update_values
    |by apply reset_scores_ok|apply board_ok_new].
Qed.

Lemma EndGame_ok roomId svc :
  service_ok svc → service_ok (GameService.EndGame roomId svc).
Proof.
  intros Hok. unfold GameService.EndGame.
  destruct (_rooms svc !! roomId) as [room|] eqn:E; [|done].
  eapply service_ok_insert; [done| |done].
  apply room_ok_with_State. by apply Hok.
Qed.

Lemma SubmitWord_ok c word svc :
  service_ok svc → service_ok (GameHub.SubmitWord c word svc).2.
Proof.
  intros Hok. unfold GameHub.SubmitWord.
  destruct (GameService.GetRoomByConnectionId c svc) as [room|] eqn:E; [|done].
  destruct (GetRoomByConnectionId_stored _ _ _ Hok E) as (Hr & _ & Hroom).
  pose proof Hroom as [Hid Hwf Hne Hsc Hb].
  repeat case_match; try done. simpl.
  eapply service_ok_insert; [done| |done].
  apply room_ok_with_Players; [done|by apply wf_update_at| |].
  - by rewrite Keys_update_at.
  - rewrite to_map_update_at by done.
    intros k q. destruct (decide (c = k)) as [->|Hck].
    + rewrite lookup_alter_eq. intros Hq.
      destruct (Dictionary.to_map (Players room) !! k); simplify_eq/=.
      apply to_int32_range.
    + rewrite lookup_alter_ne by done. by apply Hsc.
Qed.

Lemma step_ok svc op : service_ok svc → service_ok (step svc op).
Proof.
  intros Hok. destruct op; simpl.
  - by apply CreateRoom_ok.
  - by apply JoinRoom_ok.
  - by apply LeaveRoom_ok.
  - by apply StartGame_ok.
  - unfold GameHub.ResetGame. repeat case_match; try done. simpl.
    by apply ResetRoom_ok.
  - by apply SubmitWord_ok.
  - unfold GameHub.EndGameInternal. repeat case_match; try done. simpl.
    by apply EndGame_ok.
Qed.

Lemma run_ok ops svc : service_ok svc → service_ok (run ops svc).
Proof.
  revert svc. induction ops as [|op ops IH]; intros svc Hok; [done|].
  simpl. apply IH. by apply step_ok.
Qed.

Lemma reachable_ok svc : reachable svc → service_ok svc.
Proof. intros [ops <-]. apply run_ok, service_ok_new. Qed.

Lemma reachable_step svc op : reachable svc → reachable (step svc op).
Proof.
  intros [ops <-]. exists (ops ++ [op]). unfold run. by rewrite foldl_app.
Qed.

(** In a well-formed state [Keys.First()] finds a key: [LeaveRoom] returns. *)
Lemma LeaveRoom_returns c svc :
  service_ok svc → ∃ result, (GameService.LeaveRoom c svc).1 = Returned result.
Proof.
  intros Hok. unfold GameService.LeaveRoom.
  destruct (_playerRooms svc !! c) as [roomId|]; [|by eexists]. simpl.
  destruct (_rooms svc !! roomId) as [room|] eqn:E; [|by eexists].
  destruct (Hok _ _ E) as [_ Hwf _ _ _].
  destruct (Nat.eqb_spec (Dictionary.Count (Dictionary.Remove (Players room) c)) 0)
    as [Hz|Hnz]; simpl; [by eexists|].
  case_bool_decide; [|by eexists].
  destruct (Dictionary.Keys (Dictionary.Remove (Players room) c)) eqn:EK;
    [|by eexists].
  exfalso. apply Hnz. apply Count_zero; [by apply wf_Remove|done].
Qed.

Lemma reachable_new : reachable new_GameService.
Proof. by exists []. Qed.

Lemma reachable_run ops svc : reachable svc → reachable (run ops svc).
Proof.
  intros [ops0 <-]. exists (ops0 ++ ops). unfold run. by rewrite foldl_app.
Qed.

(** The scenarios are reachable. *)

Lemma reachable_lobby : reachable Scenario.lobby.
Proof. apply reachable_run, reachable_new. Qed.

Lemma reachable_two_players : reachable Scenario.two_players.
Proof. apply reachable_run, reachable_lobby. Qed.

Lemma reachable_playing : reachable Scenario.playing.
Proof. apply reachable_run, reachable_two_players. Qed.

Lemma reachable_scored : reachable Scenario.scored.
Proof. apply reachable_run, reachable_playing. Qed.

Lemma reachable_finished : reachable Scenario.finished.
Proof. apply reachable_run, reachable_scored. Qed.

Lemma reachable_dave_joined : reachable Scenario.dave_joined.
Proof. do 2 apply reachable_run. apply reachable_two_players. Qed.

Lemma reachable_full_room : reachable Scenario.full_room.
Proof. apply reachable_run, reachable_two_players. Qed.

(* ================================================================== *)
(** ** Room creation *)

Lemma GenerateRoomId_length random :
  String.length (GameService.GenerateRoomId random) = 6%nat.
Proof. reflexivity. Qed.

(** C1, as stated, fails: a second room whose generator draws the code of
    a live room is returned with that same code and takes the place of
    the first room in the table; nothing is retried. *)
Lemma CreateRoom_collision_replaces_room :
  let '(room2, svc2) :=
    GameService.CreateRoom "Night Owls" "c2" "bob" Scenario.zeros Scenario.lobby in
  RoomName <$> _rooms Scenario.lobby !! RoomId room2 = Some "Word Warriors" ∧
  RoomName <$> _rooms svc2 !! RoomId room2 = Some "Night Owls" ∧
  size (_rooms svc2) = 1%nat ∧
  _playerRooms svc2 !! "c1" = Some (RoomId room2).
Proof. vm_compute. done. Qed.

(** C1, amended: every [CreateRoom] call returns the 6-character code
    drawn by the generator and registers the room under it, in the
    Waiting state with the caller as host and only member, without any
    check or retry.  In a state the server can reach, the registry then
    holds no other room with that code; and when the drawn code is not
    the code of a live room, no live room has the returned code and every
    live room stays registered. *)
Theorem CreateRoom_code_unique_when_unused roomName c u random svc :
  let '(room, svc') := GameService.CreateRoom roomName c u random svc in
  RoomId room = GameService.GenerateRoomId random ∧
  String.length (RoomId room) = 6%nat ∧
  _rooms svc' = <[RoomId room := room]> (_rooms svc) ∧
  _playerRooms svc' = <[c := RoomId room]> (_playerRooms svc) ∧
  State room = Waiting ∧ HostConnectionId room = c ∧
  Dictionary.Keys (Players room) = [c] ∧
  (reachable svc →
   (∀ id r, _rooms svc' !! id = Some r → RoomId r = RoomId room → r = room) ∧
   (_rooms svc !! GameService.GenerateRoomId random = None →
    ∀ id r, _rooms svc !! id = Some r →
            id ≠ RoomId room ∧ RoomId r ≠ RoomId room ∧
            _rooms svc' !! id = Some r)).
Proof.
  simpl. do 7 (split; [reflexivity|]). intros Hreach. split.
  - intros id r Hr Hid.
    assert (service_ok (GameService.CreateRoom roomName c u random svc).2) as Hok
      by by apply CreateRoom_ok, reachable_ok.
    pose proof (Hok _ _ Hr) as [Hid' _ _ _ _]. simpl in Hr.
    rewrite <- Hid', Hid, lookup_insert_eq in Hr. by injection Hr.
  - intros Hfree id r Hr.
    pose proof (reachable_ok _ Hreach _ _ Hr) as [Hid _ _ _ _].
    assert (id ≠ GameService.GenerateRoomId random) as Hne
      by (intros ->; congruence).
    split; [done|]. split; [by rewrite Hid|]. by rewrite lookup_insert_ne.
Qed.

Lemma CreateRoom_code_unique_when_unused_witness :
  reachable Scenario.lobby ∧
  _rooms Scenario.lobby !! GameService.GenerateRoomId Scenario.ones = None ∧
  let '(room, svc') :=
    GameService.CreateRoom "Night Owls" "c2" "bob" Scenario.ones Scenario.lobby in
  RoomId room = GameService.GenerateRoomId Scenario.ones ∧
  String.length (RoomId room) = 6%nat ∧
  _rooms svc' = <[RoomId room := room]> (_rooms Scenario.lobby) ∧
  _playerRooms svc' = <["c2" := RoomId room]> (_playerRooms Scenario.lobby) ∧
  State room = Waiting ∧ HostConnectionId room = "c2" ∧
  Dictionary.Keys (Players room) = ["c2"] ∧
  (∀ id r, _rooms svc' !! id = Some r → RoomId r = RoomId room → r = room) ∧
  (∀ id r, _rooms Scenario.lobby !! id = Some r →
           id ≠ RoomId room ∧ RoomId r ≠ RoomId room ∧
           _rooms svc' !! id = Some r).
Proof.
  assert (_rooms Scenario.lobby !! GameService.GenerateRoomId Scenario.ones = None)
    as Hfree by (vm_compute; reflexivity).
  split; [exact reachable_lobby|]. split; [exact Hfree|].
  generalize (CreateRoom_code_unique_when_unused
                "Night Owls" "c2" "bob" Scenario.ones Scenario.lobby).
  destruct (GameService.CreateRoom "Night Owls" "c2" "bob" Scenario.ones
              Scenario.lobby) as [room svc'].
  intros (H1 & H2 & H3 & H4 & H5 & H6 & H7 & H8).
  destruct (H8 reachable_lobby) as [H9 H10].
  repeat (split; [assumption|]). exact (H10 Hfree).
Defined.

(* ================================================================== *)
(** ** The round timer *)




(* ================================================================== *)
(** ** Starting a round *)

Lemma Values_reset_round d p :
  p ∈ Dictionary.Values (Dictionary.update_values GameService.reset_round d) →
  Score p = 0 ∧ FoundWords p = [].
Proof.
  rewrite Values_update_values. intros (q & -> & _)%list_elem_of_fmap. done.
Qed.

(** C2, as stated, fails: the host's [StartGame] on a room in progress is
    accepted; the board is rolled again and bob's point is gone. *)
Lemma StartGame_accepted_while_InProgress :
  let before := _rooms Scenario.scored !! "AAAAAA" in
  let '((success, message, room'), svc') :=
    GameService.StartGame "c1" 50000000 Scenario.dice_b Scenario.scored in
  let after := _rooms svc' !! "AAAAAA" in
  State <$> before = Some InProgress ∧
  (success, message) = (true, "Game started") ∧
  State <$> after = Some InProgress ∧
  Board <$> after ≠ Board <$> before ∧
  Score <$> (before ≫= λ r, Dictionary.TryGetValue (Players r) "c2") = Some 1 ∧
  Score <$> (after ≫= λ r, Dictionary.TryGetValue (Players r) "c2") = Some 0 ∧
  FoundWords <$> (after ≫= λ r, Dictionary.TryGetValue (Players r) "c2") = Some [].
Proof. vm_compute. repeat split; discriminate. Qed.

(** C2, amended: [StartGame] does not look at the state of the room; it
    acts on the room the session index resolves the caller to.  When that
    room is in progress and its host field holds the caller, the call
    succeeds and starts a new round in it: a fresh board, the start time
    stamped again, every score and found-word list emptied; code, roster
    and host are kept. *)
Theorem StartGame_by_host_restarts_round c now random svc room :
  reachable svc →
  GameService.GetRoomByConnectionId c svc = Some room →
  State room = InProgress →
  HostConnectionId room = c →
  ∃ room',
    GameService.StartGame c now random svc
    = ((true, "Game started", Some room'),
       with_rooms (<[RoomId room := room']> (_rooms svc)) svc) ∧
    State room' = InProgress ∧
    Board room' = LetterGenerator.GenerateBoard random ∧
    GameStartTime room' = Some now ∧
    (∀ p, p ∈ Dictionary.Values (Players room') → Score p = 0 ∧ FoundWords p = []) ∧
    Dictionary.Keys (Players room') = Dictionary.Keys (Players room) ∧
    RoomId room' = RoomId room ∧ HostConnectionId room' = c.
Proof.
  intros Hreach Hroom Hstate Hhost.
  destruct (GetRoomByConnectionId_stored _ _ _ (reachable_ok _ Hreach) Hroom)
    as (_ & _ & [Hid Hwf Hne Hsc Hb]).
  unfold GameService.StartGame. rewrite Hroom.
  rewrite bool_decide_eq_false_2 by (intros ?; done).
  assert ((Dictionary.Count (Players room) <? 1)%nat = false) as ->.
  { apply Nat.ltb_ge. rewrite Count_Keys by done.
    destruct (Dictionary.Keys (Players room)); [done|simpl; lia]. }
  eexists. split; [reflexivity|]. simpl.
  repeat split; try done.
  - by eapply Values_reset_round.
  - by eapply Values_reset_round.
  - apply Keys_update_values.
Qed.

Lemma StartGame_by_host_restarts_round_witness :
  ∃ room',
    GameService.StartGame "c1" 50000000 Scenario.dice_b Scenario.scored
    = ((true, "Game started", Some room'),
       with_rooms (<["AAAAAA" := room']> (_rooms Scenario.scored)) Scenario.scored) ∧
    State room' = InProgress ∧
    Board room' = LetterGenerator.GenerateBoard Scenario.dice_b ∧
    GameStartTime room' = Some 50000000 ∧
    (∀ p, p ∈ Dictionary.Values (Players room') → Score p = 0 ∧ FoundWords p = []) ∧
    Dictionary.Keys (Players room') = ["c1"; "c2"] ∧
    RoomId room' = "AAAAAA" ∧ HostConnectionId room' = "c1".
Proof.
  destruct (GameService.GetRoomByConnectionId "c1" Scenario.scored) as [room|] eqn:E;
    [|vm_compute in E; discriminate].
  assert (RoomId room = "AAAAAA" ∧ State room = InProgress ∧
          HostConnectionId room = "c1" ∧
          Dictionary.Keys (Players room) = ["c1"; "c2"]) as (Hid & Hst & Hh & Hk).
  { vm_compute in E. injection E as <-. by vm_compute. }
  rewrite <- Hid, <- Hk.
  exact (StartGame_by_host_restarts_round "c1" 50000000 Scenario.dice_b
           Scenario.scored room reachable_scored E Hst Hh).
Defined.

(* ================================================================== *)
(** ** The board of a room and of its snapshot *)

Lemma ToJaggedArray_shape b :
  board_ok b →
  List.length (LetterGenerator.ToJaggedArray b) = 4%nat ∧
  Forall (λ row, List.length row = 4%nat) (LetterGenerator.ToJaggedArray b).
Proof.
  intros (H0 & H1 & _). unfold LetterGenerator.ToJaggedArray. rewrite H0, H1.
  split; [done|]. repeat constructor.
Qed.

(** C3, as stated, fails in both directions: a waiting room holds a board
    object (the blank grid), and the snapshot of a finished room carries
    no board although the room still has the board of the round. *)
Lemma Finished_snapshot_has_no_board :
  let waiting := _rooms Scenario.lobby !! "AAAAAA" in
  let played := _rooms Scenario.scored !! "AAAAAA" in
  let ended := _rooms Scenario.finished !! "AAAAAA" in
  State <$> waiting = Some Waiting ∧
  Board <$> waiting = Some (new_Array2D 4 4) ∧
  State <$> ended = Some Finished ∧
  Board <$> ended = Board <$> played ∧
  gs_State <$> GameService.GetGameState "AAAAAA" 1800000000 Scenario.finished
    = Some Finished ∧
  gs_Board <$> GameService.GetGameState "AAAAAA" 1800000000 Scenario.finished
    = Some None.
Proof. vm_compute. done. Qed.

(** C3, amended: the board field of a room always holds a 4x4 grid (blank
    until a round is generated) and [EndGame] leaves it untouched, so a
    finished room retains its board; the snapshot of a room carries the
    board exactly when the room is in progress. *)
Theorem snapshot_board_iff_InProgress svc id room now :
  reachable svc →
  _rooms svc !! id = Some room →
  board_ok (Board room) ∧
  (∃ dto, GameService.GetGameState id now svc = Some dto ∧
          gs_State dto = State room ∧
          (is_Some (gs_Board dto) ↔ State room = InProgress) ∧
          (State room = InProgress →
           gs_Board dto = Some (LetterGenerator.ToJaggedArray (Board room)))) ∧
  (∃ room', _rooms (GameService.EndGame id svc) !! id = Some room' ∧
            State room' = Finished ∧ Board room' = Board room).
Proof.
  intros Hreach Hroom.
  destruct (reachable_ok _ Hreach _ _ Hroom) as [_ _ _ _ Hb].
  split; [done|]. split.
  - unfold GameService.GetGameState, GameService.GetRoom. rewrite Hroom.
    eexists. split; [reflexivity|]. simpl. split; [done|].
    case_bool_decide as Hst.
    + split; [|done]. split; [done|by eexists].
    + split; [|done]. split; [by intros [? ?]|done].
  - unfold GameService.EndGame. rewrite Hroom. simpl.
    rewrite lookup_insert_eq. by eexists.
Qed.

Lemma snapshot_board_iff_InProgress_witness :
  ∃ room, _rooms Scenario.finished !! "AAAAAA" = Some room ∧
  board_ok (Board room) ∧
  (∃ dto, GameService.GetGameState "AAAAAA" 1800000000 Scenario.finished = Some dto ∧
          gs_State dto = State room ∧
          (is_Some (gs_Board dto) ↔ State room = InProgress) ∧
          (State room = InProgress →
           gs_Board dto = Some (LetterGenerator.ToJaggedArray (Board room)))) ∧
  (∃ room', _rooms (GameService.EndGame "AAAAAA" Scenario.finished) !! "AAAAAA"
            = Some room' ∧
            State room' = Finished ∧ Board room' = Board room).
Proof.
  destruct (_rooms Scenario.finished !! "AAAAAA") as [room|] eqn:E;
    [|vm_compute in E; discriminate].
  exists room. split; [reflexivity|].
  exact (snapshot_board_iff_InProgress Scenario.finished "AAAAAA" room 1800000000
           reachable_finished E).
Defined.

(* ================================================================== *)
(** ** Failing calls *)

Lemma GameService_eta svc : mkGameService (_rooms svc) (_playerRooms svc) = svc.
Proof. by destruct svc. Qed.

(** C5, as stated, fails: alice is indexed to a code whose room is gone;
    her [LeaveRoom] reports failure and has removed her index entry. *)
Lemma LeaveRoom_failure_drops_index_entry :
  let '(result, svc') := GameService.LeaveRoom "c1" Scenario.orphaned in
  result = Returned (false, None, None) ∧
  _playerRooms Scenario.orphaned !! "c1" = Some "AAAAAA" ∧
  _playerRooms svc' !! "c1" = None.
Proof. vm_compute. done. Qed.

(** C5, amended: a call that reports failure leaves the room table, and
    with it every room, unchanged.  It leaves the session index unchanged
    as well, except for a [LeaveRoom] whose caller is indexed to a code
    that is not in the table: that call removes the caller's entry before
    it reports failure.  Where every indexed code is in the table, a
    failing call changes nothing. *)
Theorem failed_call_keeps_rooms svc op :
  failed svc op = true →
  _rooms (step svc op) = _rooms svc ∧
  (_playerRooms (step svc op) = _playerRooms svc ∨
   ∃ c id, op = OpLeaveRoom c ∧ _playerRooms svc !! c = Some id ∧
           _rooms svc !! id = None ∧
           _playerRooms (step svc op) = delete c (_playerRooms svc)) ∧
  ((∀ c id, _playerRooms svc !! c = Some id → is_Some (_rooms svc !! id)) →
   step svc op = svc).
Proof.
  intros Hfail. destruct op as [n c u r|roomId c u|c|c now r|c now|c w|roomId now];
    simpl in *; try discriminate.
  - (* JoinRoom *)
    revert Hfail. unfold GameService.JoinRoom.
    repeat case_match; simpl; try discriminate; intros _; repeat split; by left.
  - (* LeaveRoom *)
    revert Hfail. unfold GameService.LeaveRoom.
    destruct (_playerRooms svc !! c) as [id|] eqn:Ei; simpl.
    + destruct (_rooms svc !! id) as [room|] eqn:Er; simpl.
      * repeat case_match; simpl; discriminate.
      * intros _. split; [done|]. split.
        -- right. by exists c, id.
        -- intros Hsound. destruct (Hsound _ _ Ei) as [? ?]. congruence.
    + intros _. repeat split; by left.
  - (* StartGame *)
    revert Hfail. unfold GameService.StartGame.
    repeat case_match; simpl; try discriminate; intros _; repeat split; by left.
  - (* ResetGame *)
    revert Hfail. unfold GameHub.ResetGame.
    repeat case_match; simpl; try discriminate; intros _; repeat split; by left.
  - (* SubmitWord *)
    revert Hfail. unfold GameHub.SubmitWord.
    repeat case_match; simpl; try discriminate; intros _; repeat split; by left.
Qed.

Lemma failed_call_keeps_rooms_witness :
  let svc := Scenario.orphaned in
  let op := OpLeaveRoom "c1" in
  _rooms (step svc op) = _rooms svc ∧
  (_playerRooms (step svc op) = _playerRooms svc ∨
   ∃ c id, op = OpLeaveRoom c ∧ _playerRooms svc !! c = Some id ∧
           _rooms svc !! id = None ∧
           _playerRooms (step svc op) = delete c (_playerRooms svc)) ∧
  ((∀ c id, _playerRooms svc !! c = Some id → is_Some (_rooms svc !! id)) →
   step svc op = svc).
Proof.
  apply (failed_call_keeps_rooms Scenario.orphaned (OpLeaveRoom "c1")).
  vm_compute. reflexivity.
Defined.

(* ================================================================== *)
(** ** The host leaves *)

(** What [LeaveRoom] does when the caller is the host of the room it is
    indexed to and some other session is on the roster. *)
Lemma LeaveRoom_host svc c room newHost rest :
  service_ok svc →
  GameService.GetRoomByConnectionId c svc = Some room →
  HostConnectionId room = c →
  filter (λ x, x ≠ c) (Dictionary.Keys (Players room)) = newHost :: rest →
  let room' := with_Host newHost
                 (with_Players (Dictionary.Remove (Players room) c) room) in
  GameService.LeaveRoom c svc
  = (Returned (true, Some room', Some newHost),
     mkGameService (<[RoomId room := room']> (_rooms svc))
                   (delete c (_playerRooms svc))).
Proof.
  intros Hok Hroom Hhost Hfilter.
  destruct (GetRoomByConnectionId_stored _ _ _ Hok Hroom)
    as (Hr & Hi & [Hid Hwf Hne Hsc Hb]).
  pose proof (Keys_Remove (Players room) c Hwf) as HK. rewrite Hfilter in HK.
  unfold GameService.LeaveRoom. rewrite Hi. simpl. rewrite Hr. simpl.
  assert ((Dictionary.Count (Dictionary.Remove (Players room) c) =? 0)%nat = false)
    as ->.
  { apply Nat.eqb_neq. rewrite Count_Keys by by apply wf_Remove. by rewrite HK. }
  rewrite bool_decide_eq_true_2 by done. rewrite HK.
  unfold with_rooms. simpl. by rewrite insert_insert_eq.
Qed.

Lemma other_member_remains (keys : list string) c c' :
  c' ≠ c → c' ∈ keys → ∃ newHost rest, filter (λ x, x ≠ c) keys = newHost :: rest.
Proof.
  intros Hne Hin.
  destruct (filter (λ x, x ≠ c) keys) as [|h t] eqn:E; [|by eauto].
  assert (c' ∈ filter (λ x, x ≠ c) keys) as Hin' by by apply list_elem_of_filter.
  rewrite E in Hin'. by apply elem_of_nil in Hin'.
Qed.

(** C7, as stated, fails: alice hosts room AAAAAA, of which bob is a
    member too, and has then created a second room, so the session index
    resolves her to the second room.  Her [LeaveRoom] call succeeds
    without a new host, and AAAAAA keeps her as host, with both players
    on its roster. *)
Lemma LeaveRoom_by_host_indexed_elsewhere :
  let host svc := HostConnectionId <$> _rooms svc !! "AAAAAA" in
  let roster svc := Dictionary.Keys <$> (Players <$> _rooms svc !! "AAAAAA") in
  let '(result, svc') := GameService.LeaveRoom "c1" Scenario.two_rooms in
  host Scenario.two_rooms = Some "c1" ∧
  roster Scenario.two_rooms = Some ["c1"; "c2"] ∧
  result = Returned (true, None, None) ∧
  host svc' = Some "c1" ∧
  roster svc' = Some ["c1"; "c2"].
Proof. vm_compute. done. Qed.

(** C7, amended: [LeaveRoom] acts on the room the session index resolves
    the caller to.  When the host field of that room holds the caller and
    another member remains on its roster, the call succeeds, the new host
    it reports is on the roster that is left, and the room it returns,
    which is the room stored afterwards, has that session as its host. *)
Theorem LeaveRoom_host_promotes_member svc c room c' :
  reachable svc →
  GameService.GetRoomByConnectionId c svc = Some room →
  HostConnectionId room = c →
  c' ≠ c → in_roster c' room →
  ∃ room' newHost svc',
    GameService.LeaveRoom c svc = (Returned (true, Some room', Some newHost), svc') ∧
    in_roster newHost room' ∧
    newHost ≠ c ∧ in_roster newHost room ∧
    HostConnectionId room' = newHost ∧
    _rooms svc' !! RoomId room = Some room' ∧
    (∀ x, in_roster x room' ↔ x ≠ c ∧ in_roster x room) ∧
    _playerRooms svc' !! c = None.
Proof.
  intros Hreach Hroom Hhost Hne Hin.
  pose proof (reachable_ok _ Hreach) as Hok.
  destruct (other_member_remains _ _ _ Hne Hin) as (newHost & rest & Hf).
  destruct (GetRoomByConnectionId_stored _ _ _ Hok Hroom)
    as (_ & _ & [_ Hwf _ _ _]).
  eexists _, newHost, _. split; [by eapply LeaveRoom_host|].
  assert (∀ x, x ∈ Dictionary.Keys (Dictionary.Remove (Players room) c)
               ↔ x ≠ c ∧ x ∈ Dictionary.Keys (Players room)) as Hmem
    by (intros x; by apply Keys_Remove_elem).
  assert (newHost ≠ c ∧ newHost ∈ Dictionary.Keys (Players room)) as [Hn1 Hn2].
  { apply (list_elem_of_filter (λ x, x ≠ c)). rewrite Hf. by left. }
  unfold in_roster. simpl. repeat split; try done.
  - by apply Hmem.
  - by rewrite lookup_insert_eq.
  - by apply Hmem.
  - by apply Hmem.
  - by apply Hmem.
  - by apply lookup_delete_eq.
Qed.

Lemma LeaveRoom_host_promotes_member_witness :
  ∃ room, GameService.GetRoomByConnectionId "c1" Scenario.two_players = Some room ∧
  ∃ room' newHost svc',
    GameService.LeaveRoom "c1" Scenario.two_players
    = (Returned (true, Some room', Some newHost), svc') ∧
    in_roster newHost room' ∧
    newHost ≠ "c1" ∧ in_roster newHost room ∧
    HostConnectionId room' = newHost ∧
    _rooms svc' !! RoomId room = Some room' ∧
    (∀ x, in_roster x room' ↔ x ≠ "c1" ∧ in_roster x room) ∧
    _playerRooms svc' !! "c1" = None.
Proof.
  destruct (GameService.GetRoomByConnectionId "c1" Scenario.two_players)
    as [room|] eqn:E; [|vm_compute in E; discriminate].
  exists room. split; [reflexivity|].
  assert (HostConnectionId room = "c1" ∧ in_roster "c2" room) as [Hh Hin].
  { vm_compute in E. injection E as <-. split; [reflexivity|].
    unfold in_roster. vm_compute. right. left. }
  apply (LeaveRoom_host_promotes_member Scenario.two_players "c1" room "c2"
           reachable_two_players E Hh); [discriminate|exact Hin].
Defined.

(** C10, as stated, fails: carol was on the roster before dave joined, and
    both remain when alice, the host, leaves; dave is promoted, because he
    took the slot that bob had vacated. *)
Lemma LeaveRoom_promotes_later_joiner :
  let roster svc := Dictionary.Keys <$> (Players <$> _rooms svc !! "AAAAAA") in
  roster Scenario.bob_left = Some ["c1"; "c3"] ∧
  roster Scenario.dave_joined = Some ["c1"; "c4"; "c3"] ∧
  ∃ room' svc',
    GameService.LeaveRoom "c1" Scenario.dave_joined
    = (Returned (true, Some room', Some "c4"), svc') ∧
    Dictionary.Keys (Players room') = ["c4"; "c3"].
Proof. vm_compute. repeat split. eexists _, _. split; reflexivity. Qed.

(** C10, amended: [LeaveRoom] acts on the room the session index resolves
    the caller to.  When the host field of that room holds the caller and
    its roster still has another player, the new host is the first key of
    the roster dictionary in its stored slot order once the leaver is
    removed, that is, the first stored key other than the leaver; it is a
    function of the state before the call. *)
Theorem LeaveRoom_host_promotes_first_stored svc c room c' :
  reachable svc →
  GameService.GetRoomByConnectionId c svc = Some room →
  HostConnectionId room = c →
  c' ≠ c → in_roster c' room →
  ∃ room' newHost svc',
    GameService.LeaveRoom c svc = (Returned (true, Some room', Some newHost), svc') ∧
    head (filter (λ x, x ≠ c) (Dictionary.Keys (Players room))) = Some newHost ∧
    Dictionary.Keys (Players room')
    = filter (λ x, x ≠ c) (Dictionary.Keys (Players room)) ∧
    HostConnectionId room' = newHost.
Proof.
  intros Hreach Hroom Hhost Hne Hin.
  pose proof (reachable_ok _ Hreach) as Hok.
  destruct (other_member_remains _ _ _ Hne Hin) as (newHost & rest & Hf).
  destruct (GetRoomByConnectionId_stored _ _ _ Hok Hroom)
    as (_ & _ & [_ Hwf _ _ _]).
  eexists _, newHost, _. split; [by eapply LeaveRoom_host|].
  simpl. rewrite Hf. repeat split.
  rewrite <- Hf. by apply Keys_Remove.
Qed.

Lemma LeaveRoom_host_promotes_first_stored_witness :
  ∃ room, GameService.GetRoomByConnectionId "c1" Scenario.dave_joined = Some room ∧
  ∃ room' newHost svc',
    GameService.LeaveRoom "c1" Scenario.dave_joined
    = (Returned (true, Some room', Some newHost), svc') ∧
    head (filter (λ x, x ≠ "c1") (Dictionary.Keys (Players room))) = Some newHost ∧
    Dictionary.Keys (Players room')
    = filter (λ x, x ≠ "c1") (Dictionary.Keys (Players room)) ∧
    HostConnectionId room' = newHost.
Proof.
  destruct (GameService.GetRoomByConnectionId "c1" Scenario.dave_joined)
    as [room|] eqn:E; [|vm_compute in E; discriminate].
  exists room. split; [reflexivity|].
  assert (HostConnectionId room = "c1" ∧ in_roster "c3" room) as [Hh Hin].
  { vm_compute in E. injection E as <-. split; [reflexivity|].
    unfold in_roster. vm_compute. right. right. left. }
  apply (LeaveRoom_host_promotes_first_stored Scenario.dave_joined "c1" room "c3"
           reachable_dave_joined E Hh); [discriminate|exact Hin].
Defined.

(* ================================================================== *)
(** ** Word submission *)


Lemma TryGetValue_update_at_ne {V} (f : V → V) (d : Dictionary.t V) k k' :
  Dictionary.wf d → k ≠ k' →
  Dictionary.TryGetValue (Dictionary.update_at f k d) k'
  = Dictionary.TryGetValue d k'.
Proof.
  intros Hwf Hne. rewrite !TryGetValue_to_map.
  rewrite to_map_update_at by done. by rewrite lookup_alter_ne.
Qed.





(* ================================================================== *)
(** ** Joining a room *)

Lemma name_taken_iff (l : list Player) username :
  existsb (λ p, Equals_OrdinalIgnoreCase (Username p) username) l = true ↔
  ∃ p, p ∈ l ∧ ToUpper (Username p) = ToUpper username.
Proof.
  rewrite existsb_exists. unfold Equals_OrdinalIgnoreCase. split.
  - intros (p & Hin & Heq). exists p. rewrite list_elem_of_In.
    by apply bool_decide_eq_true in Heq.
  - intros (p & Hin & Heq). exists p. rewrite <- list_elem_of_In.
    by rewrite bool_decide_eq_true.
Qed.

Lemma TryGetValue_set {V} (d : Dictionary.t V) k v :
  Dictionary.wf d → Dictionary.TryGetValue (Dictionary.set d k v) k = Some v.
Proof.
  intros Hwf. rewrite TryGetValue_to_map, to_map_set by done.
  apply lookup_insert_eq.
Qed.

Lemma TryGetValue_set_ne {V} (d : Dictionary.t V) k k' v :
  Dictionary.wf d → k ≠ k' →
  Dictionary.TryGetValue (Dictionary.set d k v) k' = Dictionary.TryGetValue d k'.
Proof.
  intros Hwf Hne. rewrite !TryGetValue_to_map, to_map_set by done.
  by apply lookup_insert_ne.
Qed.

(** C6, as stated, fails in its last part: alice, already a member,
    joins her room again under another name; the call succeeds and the
    roster has as many players as before. *)
Lemma JoinRoom_member_adds_no_player :
  let before := _rooms Scenario.two_players !! "AAAAAA" in
  let '((success, message, room'), svc') :=
    GameService.JoinRoom "AAAAAA" "c1" "Alicia" Scenario.two_players in
  (success, message) = (true, "Joined successfully") ∧
  Dictionary.Count <$> (Players <$> before) = Some 2%nat ∧
  Dictionary.Count <$> (Players <$> room') = Some 2%nat ∧
  Dictionary.Keys <$> (Players <$> before) = Some ["c1"; "c2"] ∧
  Dictionary.Keys <$> (Players <$> room') = Some ["c1"; "c2"] ∧
  Username <$> (room' ≫= λ r, Dictionary.TryGetValue (Players r) "c1") = Some "Alicia".
Proof. vm_compute. done. Qed.

(** C6, amended: the four rejections are as stated, checked in that
    order.  On success the roster entry of the session is set to a fresh
    player, which adds exactly one player when the session was not yet a
    member of the room and replaces the member's entry otherwise; every
    other entry is kept, the session is indexed to the room and the room
    is returned. *)
Theorem JoinRoom_outcomes roomId c username svc :
  reachable svc →
  (_rooms svc !! roomId = None →
   GameService.JoinRoom roomId c username svc = ((false, "Room not found", None), svc)) ∧
  (∀ room, _rooms svc !! roomId = Some room →
   (State room ≠ Waiting →
    GameService.JoinRoom roomId c username svc
    = ((false, "Game already in progress", None), svc)) ∧
   (State room = Waiting → (8 ≤ Dictionary.Count (Players room))%nat →
    GameService.JoinRoom roomId c username svc = ((false, "Room is full", None), svc)) ∧
   (State room = Waiting → (Dictionary.Count (Players room) < 8)%nat →
    (∃ p, p ∈ Dictionary.Values (Players room) ∧
          ToUpper (Username p) = ToUpper username) →
    GameService.JoinRoom roomId c username svc
    = ((false, "Username already taken in this room", None), svc)) ∧
   (State room = Waiting → (Dictionary.Count (Players room) < 8)%nat →
    (∀ p, p ∈ Dictionary.Values (Players room) →
          ToUpper (Username p) ≠ ToUpper username) →
    ∃ room',
      GameService.JoinRoom roomId c username svc
      = ((true, "Joined successfully", Some room'),
         mkGameService (<[roomId := room']> (_rooms svc))
                       (<[c := roomId]> (_playerRooms svc))) ∧
      Dictionary.TryGetValue (Players room') c = Some (new_Player c username) ∧
      (∀ c', c' ≠ c → Dictionary.TryGetValue (Players room') c'
                      = Dictionary.TryGetValue (Players room) c') ∧
      (¬ in_roster c room →
       Dictionary.Count (Players room') = S (Dictionary.Count (Players room))) ∧
      (in_roster c room →
       Dictionary.Count (Players room') = Dictionary.Count (Players room)) ∧
      RoomId room' = RoomId room ∧ State room' = Waiting ∧
      HostConnectionId room' = HostConnectionId room)).
Proof.
  intros Hreach. split.
  { intros Hnone. unfold GameService.JoinRoom. by rewrite Hnone. }
  intros room Hroom.
  destruct (reachable_ok _ Hreach _ _ Hroom) as [Hid Hwf Hne Hsc Hb].
  unfold GameService.JoinRoom. rewrite Hroom.
  split; [|split; [|split]].
  - intros Hst. by rewrite bool_decide_eq_true_2.
  - intros Hst Hfull. rewrite bool_decide_eq_false_2 by (intros ?; done).
    by apply Nat.leb_le in Hfull as ->.
  - intros Hst Hroomy Htaken. rewrite bool_decide_eq_false_2 by (intros ?; done).
    apply Nat.leb_gt in Hroomy as ->.
    by apply name_taken_iff in Htaken as ->.
  - intros Hst Hroomy Hfreename. rewrite bool_decide_eq_false_2 by (intros ?; done).
    apply Nat.leb_gt in Hroomy as ->.
    assert (existsb (λ p, Equals_OrdinalIgnoreCase (Username p) username)
              (Dictionary.Values (Players room)) = false) as ->.
    { apply not_true_is_false. intros (p & Hin & Heq)%name_taken_iff.
      by eapply Hfreename. }
    eexists. split; [reflexivity|]. simpl. repeat split; try done.
    + by apply TryGetValue_set.
    + intros c' Hc'. by apply TryGetValue_set_ne.
    + intros Hnew. by apply Count_set_new.
    + intros Hold. by apply Count_set_old.
Qed.

Lemma JoinRoom_outcomes_witness :
  GameService.JoinRoom "ZZZZZZ" "c2" "bob" Scenario.lobby
  = ((false, "Room not found", None), Scenario.lobby) ∧
  GameService.JoinRoom "AAAAAA" "c3" "carol" Scenario.playing
  = ((false, "Game already in progress", None), Scenario.playing) ∧
  GameService.JoinRoom "AAAAAA" "c9" "ivan" Scenario.full_room
  = ((false, "Room is full", None), Scenario.full_room) ∧
  GameService.JoinRoom "AAAAAA" "c3" "ALICE" Scenario.two_players
  = ((false, "Username already taken in this room", None), Scenario.two_players) ∧
  ∃ room, _rooms Scenario.lobby !! "AAAAAA" = Some room ∧
  ∃ room',
    GameService.JoinRoom "AAAAAA" "c2" "bob" Scenario.lobby
    = ((true, "Joined successfully", Some room'),
       mkGameService (<["AAAAAA" := room']> (_rooms Scenario.lobby))
                     (<["c2" := "AAAAAA"]> (_playerRooms Scenario.lobby))) ∧
    Dictionary.TryGetValue (Players room') "c2" = Some (new_Player "c2" "bob") ∧
    (∀ c', c' ≠ "c2" → Dictionary.TryGetValue (Players room') c'
                       = Dictionary.TryGetValue (Players room) c') ∧
    (¬ in_roster "c2" room →
     Dictionary.Count (Players room') = S (Dictionary.Count (Players room))) ∧
    (in_roster "c2" room →
     Dictionary.Count (Players room') = Dictionary.Count (Players room)) ∧
    RoomId room' = RoomId room ∧ State room' = Waiting ∧
    HostConnectionId room' = HostConnectionId room.
Proof.
  split; [|split; [|split; [|split]]].
  - apply (proj1 (JoinRoom_outcomes "ZZZZZZ" "c2" "bob" Scenario.lobby
                    reachable_lobby)).
    vm_compute. reflexivity.
  - destruct (_rooms Scenario.playing !! "AAAAAA") as [room|] eqn:E;
      [|vm_compute in E; discriminate].
    apply (proj1 (proj2 (JoinRoom_outcomes "AAAAAA" "c3" "carol" Scenario.playing
                           reachable_playing) room E)).
    vm_compute in E. injection E as <-. vm_compute. discriminate.
  - destruct (_rooms Scenario.full_room !! "AAAAAA") as [room|] eqn:E;
      [|vm_compute in E; discriminate].
    apply (proj1 (proj2 (proj2 (JoinRoom_outcomes "AAAAAA" "c9" "ivan"
                                  Scenario.full_room reachable_full_room) room E)));
      vm_compute in E; injection E as <-; vm_compute; [reflexivity|lia].
  - destruct (_rooms Scenario.two_players !! "AAAAAA") as [room|] eqn:E;
      [|vm_compute in E; discriminate].
    apply (proj1 (proj2 (proj2 (proj2 (JoinRoom_outcomes "AAAAAA" "c3" "ALICE"
                                  Scenario.two_players reachable_two_players)
                                  room E)))).
    + vm_compute in E. injection E as <-. reflexivity.
    + vm_compute in E. injection E as <-. vm_compute. lia.
    + exists (new_Player "c1" "alice"). vm_compute in E. injection E as <-.
      split; [|reflexivity]. vm_compute. by left.
  - destruct (_rooms Scenario.lobby !! "AAAAAA") as [room|] eqn:E;
      [|vm_compute in E; discriminate].
    exists room. split; [reflexivity|].
    assert (State room = Waiting ∧ Dictionary.Count (Players room) = 1%nat ∧
            Username <$> Dictionary.Values (Players room) = ["alice"])
      as (Hst & Hcount & Hnames).
    { vm_compute in E. injection E as <-. by vm_compute. }
    apply (proj2 (proj2 (proj2 (proj2 (JoinRoom_outcomes "AAAAAA" "c2" "bob"
                                  Scenario.lobby reachable_lobby) room E)))).
    + exact Hst.
    + rewrite Hcount. lia.
    + intros p Hin Heq.
      assert (Username p ∈ Username <$> Dictionary.Values (Players room)) as Hp
        by by apply list_elem_of_fmap_2.
      rewrite Hnames in Hp. apply list_elem_of_singleton in Hp.
      rewrite Hp in Heq. vm_compute in Heq. discriminate.
Defined.

(* ================================================================== *)
(** ** The session index and the rosters *)

Section Lockstep.
Variables (svc svc' : GameService).
Hypothesis Hlock : index_lockstep svc.

(** A room is rewritten with the same roster. *)
Lemma lockstep_update id room room' :
  _rooms svc !! id = Some room →
  (∀ x, in_roster x room' ↔ in_roster x room) →
  _rooms svc' = <[id := room']> (_rooms svc) →
  _playerRooms svc' = _playerRooms svc →
  index_lockstep svc'.
Proof.
  destruct Hlock as [Hs Hc]. intros Hroom Hsame Hr Hi. split.
  - intros c i. rewrite Hi, Hr. intros (r & Hr' & Hin)%Hs.
    destruct (decide (id = i)) as [->|Hne].
    + exists room'. rewrite lookup_insert_eq. split; [done|].
      apply Hsame. congruence.
    + exists r. by rewrite lookup_insert_ne.
  - intros i r c. rewrite Hi, Hr.
    destruct (decide (id = i)) as [->|Hne].
    + rewrite lookup_insert_eq. intros [= <-] Hin%Hsame. by eapply Hc.
    + rewrite lookup_insert_ne by done. apply Hc.
Qed.

(** A session that is in no room, or in this room, is put on the roster. *)
Lemma lockstep_join id room room' c :
  _rooms svc !! id = Some room →
  _playerRooms svc !! c = None ∨ _playerRooms svc !! c = Some id →
  (∀ x, in_roster x room' ↔ x = c ∨ in_roster x room) →
  _rooms svc' = <[id := room']> (_rooms svc) →
  _playerRooms svc' = <[c := id]> (_playerRooms svc) →
  index_lockstep svc'.
Proof.
  destruct Hlock as [Hs Hc]. intros Hroom Hfree Hadd Hr Hi. split.
  - intros x i. rewrite Hi, Hr.
    destruct (decide (c = x)) as [->|Hcx].
    + rewrite lookup_insert_eq. intros [= <-]. exists room'.
      rewrite lookup_insert_eq. split; [done|]. apply Hadd. by left.
    + rewrite lookup_insert_ne by done. intros (r & Hr' & Hin)%Hs.
      destruct (decide (id = i)) as [->|Hne].
      * exists room'. rewrite lookup_insert_eq. split; [done|].
        apply Hadd. right. congruence.
      * exists r. by rewrite lookup_insert_ne.
  - intros i r x. rewrite Hi, Hr.
    destruct (decide (id = i)) as [->|Hne].
    + rewrite lookup_insert_eq. intros [= <-] [->|Hin]%Hadd.
      * by rewrite lookup_insert_eq.
      * destruct (decide (c = x)) as [->|Hcx]; [by rewrite lookup_insert_eq|].
        rewrite lookup_insert_ne by done. by eapply Hc.
    + rewrite lookup_insert_ne by done. intros Hr' Hin.
      pose proof (Hc _ _ _ Hr' Hin) as Hx.
      rewrite lookup_insert_ne; [done|]. intros ->.
      destruct Hfree as [Hf|Hf]; congruence.
Qed.

(** A session that is in no room opens a room under an unused code. *)
Lemma lockstep_create id room' c :
  _rooms svc !! id = None →
  _playerRooms svc !! c = None →
  (∀ x, in_roster x room' ↔ x = c) →
  _rooms svc' = <[id := room']> (_rooms svc) →
  _playerRooms svc' = <[c := id]> (_playerRooms svc) →
  index_lockstep svc'.
Proof.
  destruct Hlock as [Hs Hc]. intros Hroom Hfree Hnew Hr Hi. split.
  - intros x i. rewrite Hi, Hr.
    destruct (decide (c = x)) as [->|Hcx].
    + rewrite lookup_insert_eq. intros [= <-]. exists room'.
      rewrite lookup_insert_eq. split; [done|]. by apply Hnew.
    + rewrite lookup_insert_ne by done. intros (r & Hr' & Hin)%Hs.
      exists r. rewrite lookup_insert_ne; [done|]. congruence.
  - intros i r x. rewrite Hi, Hr.
    destruct (decide (id = i)) as [->|Hne].
    + rewrite lookup_insert_eq. intros [= <-] ->%Hnew.
      by rewrite lookup_insert_eq.
    + rewrite lookup_insert_ne by done. intros Hr' Hin.
      pose proof (Hc _ _ _ Hr' Hin) as Hx.
      rewrite lookup_insert_ne; [done|]. congruence.
Qed.

(** A member leaves and others remain. *)
Lemma lockstep_leave_keep id room room' c :
  _playerRooms svc !! c = Some id →
  _rooms svc !! id = Some room →
  (∀ x, in_roster x room' ↔ x ≠ c ∧ in_roster x room) →
  _rooms svc' = <[id := room']> (_rooms svc) →
  _playerRooms svc' = delete c (_playerRooms svc) →
  index_lockstep svc'.
Proof.
  destruct Hlock as [Hs Hc]. intros Hidx Hroom Hrem Hr Hi. split.
  - intros x i. rewrite Hi, Hr.
    intros [Hcx (r & Hr' & Hin)%Hs]%lookup_delete_Some.
    destruct (decide (id = i)) as [->|Hne].
    + exists room'. rewrite lookup_insert_eq. split; [done|].
      apply Hrem. split; [done|congruence].
    + exists r. by rewrite lookup_insert_ne.
  - intros i r x. rewrite Hi, Hr.
    destruct (decide (id = i)) as [->|Hne].
    + rewrite lookup_insert_eq. intros [= <-] [Hcx Hin]%Hrem.
      rewrite lookup_delete_ne by done. by eapply Hc.
    + rewrite lookup_insert_ne by done. intros Hr' Hin.
      pose proof (Hc _ _ _ Hr' Hin) as Hx.
      rewrite lookup_delete_ne; [done|]. congruence.
Qed.

(** The last member leaves and the room is deleted. *)
Lemma lockstep_leave_delete id room c :
  _playerRooms svc !! c = Some id →
  _rooms svc !! id = Some room →
  (∀ x, in_roster x room → x = c) →
  _rooms svc' = delete id (_rooms svc) →
  _playerRooms svc' = delete c (_playerRooms svc) →
  index_lockstep svc'.
Proof.
  destruct Hlock as [Hs Hc]. intros Hidx Hroom Honly Hr Hi. split.
  - intros x i. rewrite Hi, Hr.
    intros [Hcx (r & Hr' & Hin)%Hs]%lookup_delete_Some.
    exists r. split; [|done]. rewrite lookup_delete_ne; [done|].
    intros ->. apply Hcx. symmetry. apply Honly. congruence.
  - intros i r x. rewrite Hi, Hr.
    intros [Hne Hr']%lookup_delete_Some Hin.
    pose proof (Hc _ _ _ Hr' Hin) as Hx.
    rewrite lookup_delete_ne; [done|]. congruence.
Qed.

Lemma lockstep_same :
  _rooms svc' = _rooms svc → _playerRooms svc' = _playerRooms svc →
  index_lockstep svc'.
Proof.
  destruct Hlock as [Hs Hc]. intros Hr Hi. split.
  - intros c i. rewrite Hi, Hr. apply Hs.
  - intros i r c. rewrite Hi, Hr. apply Hc.
Qed.

End Lockstep.

Lemma index_lockstep_new : index_lockstep new_GameService.
Proof. split; simpl; intros *; by rewrite lookup_empty. Qed.

Lemma Keys_set_empty {V} k (v : V) :
  Dictionary.Keys (Dictionary.set Dictionary.empty k v) = [k].
Proof. reflexivity. Qed.

Lemma step_lockstep svc op :
  service_ok svc → index_lockstep svc → op_disciplined svc op →
  index_lockstep (step svc op).
Proof.
  intros Hok Hlock Hdisc.
  destruct op as [n c u r|roomId c u|c|c now r|c now|c w|roomId now]; simpl in *.
  - (* CreateRoom *)
    destruct Hdisc as [Hfree Hcode].
    eapply (lockstep_create svc); [done|exact Hcode|exact Hfree| |done|done].
    intros x. unfold in_roster. simpl. rewrite Keys_set_empty.
    apply list_elem_of_singleton.
  - (* JoinRoom *)
    unfold GameService.JoinRoom.
    destruct (_rooms svc !! roomId) as [room|] eqn:E; [|done].
    repeat case_match; try done. simpl.
    destruct (Hok _ _ E) as [_ Hwf _ _ _].
    eapply (lockstep_join svc); [done|exact E|exact Hdisc| |done|done].
    intros x. unfold in_roster. simpl. by apply Keys_set.
  - (* LeaveRoom *)
    unfold GameService.LeaveRoom.
    destruct (_playerRooms svc !! c) as [id|] eqn:Ei; [|done].
    destruct (index_sound _ Hlock _ _ Ei) as (room & Er & Hin). simpl.
    rewrite Er.
    destruct (Hok _ _ Er) as [_ Hwf _ _ _].
    pose proof (Keys_Remove_elem (Players room) c) as Hrem.
    destruct (Nat.eqb_spec (Dictionary.Count (Dictionary.Remove (Players room) c)) 0)
      as [Hz|Hnz]; simpl.
    + apply Count_zero in Hz; [|by apply wf_Remove].
      eapply (lockstep_leave_delete svc); [done|exact Ei|exact Er| | |done].
      * intros x Hx. destruct (decide (x = c)) as [|Hne]; [done|].
        assert (x ∈ Dictionary.Keys (Dictionary.Remove (Players room) c)) as Hx'
          by by apply Hrem.
        rewrite Hz in Hx'. by apply elem_of_nil in Hx'.
      * simpl. by rewrite delete_insert_eq.
    + assert (Dictionary.Keys (Dictionary.Remove (Players room) c) ≠ []) as Hne
        by (rewrite <- Count_zero; [done|by apply wf_Remove]).
      case_bool_decide.
      * destruct (Dictionary.Keys (Dictionary.Remove (Players room) c)) eqn:EK;
          [done|]. simpl.
        eapply (lockstep_leave_keep svc _ Hlock id room
                  (with_Host s (with_Players (Dictionary.Remove (Players room) c) room)));
          [exact Ei|exact Er| | |done].
        -- intros x. unfold in_roster. simpl. by apply Keys_Remove_elem.
        -- simpl. by rewrite insert_insert_eq.
      * simpl.
        eapply (lockstep_leave_keep svc _ Hlock id room
                  (with_Players (Dictionary.Remove (Players room) c) room));
          [exact Ei|exact Er| |done|done].
        intros x. unfold in_roster. simpl. by apply Keys_Remove_elem.
  - (* StartGame *)
    unfold GameService.StartGame.
    destruct (GameService.GetRoomByConnectionId c svc) as [room|] eqn:E; [|done].
    destruct (GetRoomByConnectionId_stored _ _ _ Hok E) as (Hr & _ & _).
    repeat case_match; try done. simpl.
    eapply (lockstep_update svc); [done|exact Hr| |done|done].
    intros x. unfold in_roster. simpl. by rewrite Keys_update_values.
  - (* ResetGame *)
    unfold GameHub.ResetGame.
    destruct (GameService.GetRoomByConnectionId c svc) as [room|] eqn:E; [|done].
    destruct (GetRoomByConnectionId_stored _ _ _ Hok E) as (Hr & _ & _).
    case_bool_decide; [done|]. simpl. unfold GameService.ResetRoom. rewrite Hr.
    eapply (lockstep_update svc); [done|exact Hr| |done|done].
    intros x. unfold in_roster. simpl. by rewrite Keys_update_values.
  - (* SubmitWord *)
    unfold GameHub.SubmitWord.
    destruct (GameService.GetRoomByConnectionId c svc) as [room|] eqn:E; [|done].
    destruct (GetRoomByConnectionId_stored _ _ _ Hok E) as (Hr & _ & [_ Hwf _ _ _]).
    repeat case_match; try done. simpl.
    eapply (lockstep_update svc); [done|exact Hr| |done|done].
    intros x. unfold in_roster. simpl. by rewrite Keys_update_at.
  - (* the round timer *)
    unfold GameHub.EndGameInternal, GameService.GetRoom.
    destruct (_rooms svc !! roomId) as [room|] eqn:E; [|done].
    case_bool_decide; [done|]. simpl. unfold GameService.EndGame. rewrite E.
    eapply (lockstep_update svc _ Hlock roomId room (with_State Finished room));
      [exact E|done|done|done].
Qed.

Lemma run_lockstep ops svc :
  service_ok svc → index_lockstep svc → disciplined svc ops →
  index_lockstep (run ops svc).
Proof.
  revert svc. induction ops as [|op ops IH]; intros svc Hok Hlock Hd; [done|].
  destruct Hd as [Hop Hrest]. simpl. apply IH; [by apply step_ok| |done].
  by apply step_lockstep.
Qed.

Lemma lockstep_exactly_one svc c :
  index_lockstep svc →
  is_Some (_playerRooms svc !! c) ↔ in_exactly_one_roster svc c.
Proof.
  intros [Hs Hc]. split.
  - intros [id Hid]. exists id. split; [by apply Hs|].
    intros id' (room' & Hr' & Hin'). pose proof (Hc _ _ _ Hr' Hin'). congruence.
  - intros (id & (room & Hr & Hin) & _). exists id. by eapply Hc.
Qed.

(** C4, as stated, fails: alice creates a second room without leaving the
    first; she is indexed to the new room and is still on the roster of
    the old one. *)
Lemma CreateRoom_while_in_room_breaks_lockstep :
  _playerRooms Scenario.two_rooms !! "c1" = Some "BBBBBB" ∧
  (∃ room, _rooms Scenario.two_rooms !! "AAAAAA" = Some room ∧ in_roster "c1" room) ∧
  (∃ room, _rooms Scenario.two_rooms !! "BBBBBB" = Some room ∧ in_roster "c1" room) ∧
  ¬ (is_Some (_playerRooms Scenario.two_rooms !! "c1")
     ↔ in_exactly_one_roster Scenario.two_rooms "c1").
Proof.
  assert (∃ room, _rooms Scenario.two_rooms !! "AAAAAA" = Some room
                  ∧ in_roster "c1" room) as HA.
  { eexists. split; [reflexivity|]. unfold in_roster. vm_compute. by left. }
  assert (∃ room, _rooms Scenario.two_rooms !! "BBBBBB" = Some room
                  ∧ in_roster "c1" room) as HB.
  { eexists. split; [reflexivity|]. unfold in_roster. vm_compute. by left. }
  split; [by vm_compute|]. split; [done|]. split; [done|].
  intros [Hone _].
  destruct Hone as (id & _ & Huniq); [by eexists|].
  pose proof (Huniq _ HA). pose proof (Huniq _ HB). congruence.
Qed.

(** C4, amended: [CreateRoom] and [JoinRoom] do not look at the session
    index.  In a run where a session creates a room only while it is in
    no room and under an unused code, and joins a room only while it is in
    no room or in that very room, a session is in the index if and only if
    it is on the roster of exactly one room, and that room is the one it
    is indexed to. *)
Theorem disciplined_run_keeps_lockstep ops c :
  disciplined new_GameService ops →
  let svc := run ops new_GameService in
  (is_Some (_playerRooms svc !! c) ↔ in_exactly_one_roster svc c) ∧
  (∀ id, _playerRooms svc !! c = Some id ↔
         ∃ room, _rooms svc !! id = Some room ∧ in_roster c room).
Proof.
  intros Hd svc.
  assert (index_lockstep svc) as Hlock
    by (apply run_lockstep; [apply service_ok_new|apply index_lockstep_new|done]).
  split; [by apply lockstep_exactly_one|].
  intros id. split; [by apply Hlock|]. intros (room & Hr & Hin). by eapply Hlock.
Qed.

Lemma disciplined_run_keeps_lockstep_witness :
  let svc := run [OpCreateRoom "Word Warriors" "c1" "alice" Scenario.zeros;
                  OpJoinRoom "AAAAAA" "c2" "bob";
                  OpStartGame "c1" 0 Scenario.dice_a;
                  OpSubmitWord "c2" "cat";
                  OpLeaveRoom "c1";
                  OpCreateRoom "Night Owls" "c1" "alice" Scenario.ones]
                 new_GameService in
  (is_Some (_playerRooms svc !! "c1") ↔ in_exactly_one_roster svc "c1") ∧
  (∀ id, _playerRooms svc !! "c1" = Some id ↔
         ∃ room, _rooms svc !! id = Some room ∧ in_roster "c1" room).
Proof.
  apply (disciplined_run_keeps_lockstep
           [OpCreateRoom "Word Warriors" "c1" "alice" Scenario.zeros;
            OpJoinRoom "AAAAAA" "c2" "bob";
            OpStartGame "c1" 0 Scenario.dice_a;
            OpSubmitWord "c2" "cat";
            OpLeaveRoom "c1";
            OpCreateRoom "Night Owls" "c1" "alice" Scenario.ones] "c1").
  vm_compute. repeat split; by left.
Defined.

(* ================================================================== *)
(** ** Invariants of the stored rooms

    A property of rooms that holds for a new room and is kept by every
    change a call makes to a stored room holds in every reachable state. *)

Section RoomInvariant.
Variable P : GameRoom → Prop.

Hypothesis P_create : ∀ roomName c u random svc,
  P (GameService.CreateRoom roomName c u random svc).1.

Hypothesis P_join : ∀ room c u,
  room_ok (RoomId room) room → P room →
  State room = Waiting →
  (Dictionary.Count (Players room) < 8)%nat →
  (∀ p, p ∈ Dictionary.Values (Players room) →
        ToUpper (Username p) ≠ ToUpper u) →
  P (with_Players (Dictionary.set (Players room) c (new_Player c u)) room).

Hypothesis P_leave : ∀ room c,
  room_ok (RoomId room) room → P room →
  Dictionary.Keys (Dictionary.Remove (Players room) c) ≠ [] →
  HostConnectionId room ≠ c →
  P (with_Players (Dictionary.Remove (Players room) c) room).

Hypothesis P_leave_host : ∀ room c h l,
  room_ok (RoomId room) room → P room →
  HostConnectionId room = c →
  Dictionary.Keys (Dictionary.Remove (Players room) c) = h :: l →
  P (with_Host h (with_Players (Dictionary.Remove (Players room) c) room)).

Hypothesis P_start : ∀ room now random,
  room_ok (RoomId room) room → P room → P (started_room now random room).

Hypothesis P_reset : ∀ room,
  room_ok (RoomId room) room → P room → P (reset_room room).

Hypothesis P_end : ∀ room,
  room_ok (RoomId room) room → P room →
  State room = InProgress → P (with_State Finished room).

Hypothesis P_submit : ∀ room c player word,
  room_ok (RoomId room) room → P room →
  State room = InProgress →
  player_of room c = Some player →
  ToUpper word ∉ FoundWords player →
  P (with_Players
       (Dictionary.update_at (λ _, GameHub.credit word player) c (Players room)) room).

Lemma room_ok_RoomId id room : room_ok id room → room_ok (RoomId room) room.
Proof. intros H. by rewrite (ok_id _ _ H). Qed.

Lemma step_rooms_Forall svc op :
  service_ok svc →
  map_Forall (λ _, P) (_rooms svc) →
  map_Forall (λ _, P) (_rooms (step svc op)).
Proof.
  intros Hok HP.
  destruct op as [n c u r|roomId c u|c|c now r|c now|c w|roomId now]; simpl.
  - (* CreateRoom *)
    apply map_Forall_insert_2; [|done]. apply (P_create n c u r svc).
  - (* JoinRoom *)
    unfold GameService.JoinRoom.
    destruct (_rooms svc !! roomId) as [room|] eqn:E; [|done].
    pose proof (room_ok_RoomId _ _ (Hok _ _ E)) as Hroom.
    case_bool_decide as Hst; [done|].
    destruct (Nat.leb_spec 8 (Dictionary.Count (Players room))) as [|Hcount]; [done|].
    destruct (existsb _ _) eqn:Hnames; [done|]. simpl.
    apply map_Forall_insert_2; [|done].
    apply P_join; [done|by eapply HP|by destruct (State room)|done|].
    intros p Hp Heq. apply not_true_iff_false in Hnames. apply Hnames.
    apply existsb_exists. exists p. split; [by apply list_elem_of_In|].
    by apply bool_decide_eq_true.
  - (* LeaveRoom *)
    unfold GameService.LeaveRoom.
    destruct (_playerRooms svc !! c) as [id|] eqn:Ei; [|done]. simpl.
    destruct (_rooms svc !! id) as [room|] eqn:E; [|done].
    pose proof (Hok _ _ E) as Hroom0.
    pose proof (room_ok_RoomId _ _ Hroom0) as Hroom.
    destruct (Nat.eqb_spec (Dictionary.Count (Dictionary.Remove (Players room) c)) 0)
      as [Hz|Hnz]; simpl.
    + rewrite delete_insert_eq. by apply map_Forall_delete.
    + assert (Dictionary.Keys (Dictionary.Remove (Players room) c) ≠ []) as Hne.
      { rewrite <- Count_zero; [done|]. apply wf_Remove, Hroom. }
      case_bool_decide as Hhost.
      * destruct (Dictionary.Keys (Dictionary.Remove (Players room) c))
          as [|h l] eqn:EK; [done|]. simpl.
        rewrite insert_insert_eq. apply map_Forall_insert_2; [|done].
        eapply P_leave_host; [done|by eapply HP|done|done].
      * simpl. apply map_Forall_insert_2; [|done].
        apply P_leave; [done|by eapply HP|done|done].
  - (* StartGame *)
    unfold GameService.StartGame.
    destruct (GameService.GetRoomByConnectionId c svc) as [room|] eqn:E; [|done].
    destruct (GetRoomByConnectionId_stored _ _ _ Hok E) as (Hr & _ & Hroom).
    repeat case_match; try done. simpl.
    apply map_Forall_insert_2; [|done].
    apply (P_start room now r); [done|by eapply HP].
  - (* ResetGame *)
    unfold GameHub.ResetGame.
    destruct (GameService.GetRoomByConnectionId c svc) as [room|] eqn:E; [|done].
    destruct (GetRoomByConnectionId_stored _ _ _ Hok E) as (Hr & _ & Hroom).
    case_bool_decide; [done|]. simpl. unfold GameService.ResetRoom. rewrite Hr.
    simpl. apply map_Forall_insert_2; [|done].
    apply (P_reset room); [done|by eapply HP].
  - (* SubmitWord *)
    unfold GameHub.SubmitWord.
    destruct (GameService.GetRoomByConnectionId c svc) as [room|] eqn:E; [|done].
    destruct (GetRoomByConnectionId_stored _ _ _ Hok E) as (Hr & _ & Hroom).
    case_bool_decide as Hst; [done|].
    destruct (Dictionary.TryGetValue (Players room) c) as [player|] eqn:Ep; [|done].
    case_bool_decide as Hfound; simpl; [done|].
    apply map_Forall_insert_2; [|done].
    apply P_submit; [done|by eapply HP|by destruct (State room)|done|done].
  - (* the round timer *)
    unfold GameHub.EndGameInternal, GameService.GetRoom.
    destruct (_rooms svc !! roomId) as [room|] eqn:E; [|done].
    case_bool_decide as Hst; [done|]. simpl. unfold GameService.EndGame. rewrite E.
    simpl. apply map_Forall_insert_2; [|done].
    apply P_end; [by eapply room_ok_RoomId, Hok|by eapply HP|by destruct (State room)].
Qed.

Lemma reachable_rooms_Forall svc :
  reachable svc → ∀ id room, _rooms svc !! id = Some room → P room.
Proof.
  intros [ops <-].
  assert (service_ok (run ops new_GameService)
          ∧ map_Forall (λ _, P) (_rooms (run ops new_GameService))) as [_ H].
  { unfold run. generalize service_ok_new.
    assert (map_Forall (λ _, P) (_rooms new_GameService)) as H0
      by apply map_Forall_empty.
    revert H0. generalize new_GameService.
    induction ops as [|op ops IH]; intros svc HP Hok; [done|].
    simpl. apply IH; [by apply step_rooms_Forall|by apply step_ok]. }
  intros id room Hr. by eapply H.
Qed.

End RoomInvariant.

(* ================================================================== *)
(** ** Roster invariants *)

Lemma Count_set_le {V} (d : Dictionary.t V) k v :
  Dictionary.wf d →
  (Dictionary.Count (Dictionary.set d k v) ≤ S (Dictionary.Count d))%nat.
Proof.
  intros Hwf. destruct (decide (k ∈ Dictionary.Keys d)) as [Hin|Hnew].
  - rewrite Count_set_old by done. lia.
  - rewrite Count_set_new by done. lia.
Qed.

Lemma Count_Remove_le {V} (d : Dictionary.t V) k :
  Dictionary.wf d →
  (Dictionary.Count (Dictionary.Remove d k) ≤ Dictionary.Count d)%nat.
Proof.
  intros Hwf. rewrite !Count_Keys by (try apply wf_Remove; done).
  rewrite Keys_Remove by done. apply length_filter.
Qed.

Lemma player_of_to_map room c :
  player_of room c = Dictionary.to_map (Players room) !! c.
Proof. apply TryGetValue_to_map. Qed.

(** X1: a stored room has between one and eight players. *)
Theorem roster_size_between_1_and_8 svc id room :
  reachable svc →
  _rooms svc !! id = Some room →
  (1 ≤ Dictionary.Count (Players room) ≤ 8)%nat.
Proof.
  intros Hreach Hroom. split.
  - destruct (reachable_ok _ Hreach _ _ Hroom) as [_ Hwf Hne _ _].
    rewrite Count_Keys by done.
    destruct (Dictionary.Keys (Players room)); [done|simpl; lia].
  - revert id room Hroom.
    apply (reachable_rooms_Forall
             (λ room, (Dictionary.Count (Players room) ≤ 8)%nat)); try done.
    + intros. simpl. unfold Dictionary.Count. simpl. lia.
    + intros r c u [_ Hwf _ _ _] _ _ Hlt _. simpl.
      pose proof (Count_set_le (Players r) c (new_Player c u) Hwf). lia.
    + intros r c [_ Hwf _ _ _] Hle _ _. simpl.
      pose proof (Count_Remove_le (Players r) c Hwf). lia.
    + intros r c h l [_ Hwf _ _ _] Hle _ _. simpl.
      pose proof (Count_Remove_le (Players r) c Hwf). lia.
    + intros r now random _ Hle. simpl. by rewrite Count_update_values.
    + intros r _ Hle. simpl. by rewrite Count_update_values.
    + intros r c player word _ Hle _ _ _. simpl. by rewrite Count_update_at.
Qed.

Lemma roster_size_between_1_and_8_witness :
  ∃ room, _rooms Scenario.full_room !! "AAAAAA" = Some room ∧
          (1 ≤ Dictionary.Count (Players room) ≤ 8)%nat.
Proof.
  destruct (_rooms Scenario.full_room !! "AAAAAA") as [room|] eqn:E;
    [|vm_compute in E; discriminate].
  exists room. split; [reflexivity|].
  exact (roster_size_between_1_and_8 Scenario.full_room "AAAAAA" room
           reachable_full_room E).
Defined.

(** X2: within a stored room the display names of two different sessions
    differ even when case is ignored. *)
Theorem usernames_unique_up_to_case svc id room :
  reachable svc →
  _rooms svc !! id = Some room →
  names_unique room.
Proof.
  intros Hreach Hroom. revert id room Hroom.
  apply (reachable_rooms_Forall names_unique); try done; unfold names_unique.
  - (* a new room has one member *)
    intros n c u r s c1 c2 p1 p2. rewrite !player_of_to_map. simpl.
    rewrite to_map_set by apply wf_empty. rewrite to_map_empty.
    intros [[-> _]|[_ ?]]%lookup_insert_Some [[-> _]|[_ ?]]%lookup_insert_Some;
      done.
  - (* the name of a joiner was compared with every member *)
    intros r c u [_ Hwf _ _ _] HP _ _ Hfree c1 c2 p1 p2.
    rewrite !player_of_to_map. simpl. rewrite to_map_set by done.
    assert (∀ k p, Dictionary.to_map (Players r) !! k = Some p →
                   ToUpper (Username p) ≠ ToUpper u) as Hother.
    { intros k p Hk. apply Hfree. apply Values_to_map; [done|by exists k]. }
    intros [[<- <-]|[Hc1 H1]]%lookup_insert_Some
           [[<- <-]|[Hc2 H2]]%lookup_insert_Some Hne; try done.
    + simpl. intros Heq. by eapply Hother.
    + simpl. by eapply Hother.
    + eapply HP; [| |done]; by rewrite player_of_to_map.
  - intros r c [_ Hwf _ _ _] HP _ _ c1 c2 p1 p2.
    rewrite !player_of_to_map. simpl. rewrite to_map_Remove by done.
    intros [_ H1]%lookup_delete_Some [_ H2]%lookup_delete_Some Hne.
    eapply HP; [| |done]; by rewrite player_of_to_map.
  - intros r c h l [_ Hwf _ _ _] HP _ _ c1 c2 p1 p2.
    rewrite !player_of_to_map. simpl. rewrite to_map_Remove by done.
    intros [_ H1]%lookup_delete_Some [_ H2]%lookup_delete_Some Hne.
    eapply HP; [| |done]; by rewrite player_of_to_map.
  - intros r now random _ HP c1 c2 p1 p2.
    rewrite !player_of_to_map. simpl. rewrite to_map_update_values.
    intros (q1 & <- & H1)%lookup_fmap_Some (q2 & <- & H2)%lookup_fmap_Some Hne.
    simpl. eapply HP; [| |done]; by rewrite player_of_to_map.
  - intros r _ HP c1 c2 p1 p2.
    rewrite !player_of_to_map. simpl. rewrite to_map_update_values.
    intros (q1 & <- & H1)%lookup_fmap_Some (q2 & <- & H2)%lookup_fmap_Some Hne.
    simpl. eapply HP; [| |done]; by rewrite player_of_to_map.
  - intros r c player word [_ Hwf _ _ _] HP _ Hp _ c1 c2 p1 p2.
    rewrite player_of_to_map in Hp.
    rewrite !player_of_to_map. simpl. rewrite to_map_update_at by done.
    intros H1 H2 Hne.
    assert (∀ k p, alter (λ _, GameHub.credit word player) c
                     (Dictionary.to_map (Players r)) !! k = Some p →
                   ∃ q, Dictionary.to_map (Players r) !! k = Some q
                        ∧ Username p = Username q) as Hname.
    { intros k p. destruct (decide (c = k)) as [->|Hck].
      - rewrite lookup_alter_eq, Hp. simpl. intros [= <-]. by exists player.
      - rewrite lookup_alter_ne by done. intros Hk. by exists p. }
    destruct (Hname _ _ H1) as (q1 & Hq1 & ->).
    destruct (Hname _ _ H2) as (q2 & Hq2 & ->).
    eapply HP; [| |done]; by rewrite player_of_to_map.
Qed.

Lemma usernames_unique_up_to_case_witness :
  ∃ room, _rooms Scenario.full_room !! "AAAAAA" = Some room ∧ names_unique room.
Proof.
  destruct (_rooms Scenario.full_room !! "AAAAAA") as [room|] eqn:E;
    [|vm_compute in E; discriminate].
  exists room. split; [reflexivity|].
  exact (usernames_unique_up_to_case Scenario.full_room "AAAAAA" room
           reachable_full_room E).
Defined.

(* ================================================================== *)
(** ** The host and the snapshot *)

(** Every player object sits under its own connection id. *)
Lemma players_keyed_by_connection svc id room :
  reachable svc →
  _rooms svc !! id = Some room →
  ∀ c p, player_of room c = Some p → ConnectionId p = c.
Proof.
  intros Hreach Hroom. revert id room Hroom.
  apply (reachable_rooms_Forall
           (λ room, ∀ c p, player_of room c = Some p → ConnectionId p = c));
    try done.
  - intros n c u r s k p. rewrite player_of_to_map. simpl.
    rewrite to_map_set by apply wf_empty. rewrite to_map_empty.
    by intros [[<- <-]|[_ ?]]%lookup_insert_Some.
  - intros r c u [_ Hwf _ _ _] HP _ _ _ k p. rewrite player_of_to_map. simpl.
    rewrite to_map_set by done.
    intros [[<- <-]|[_ Hk]]%lookup_insert_Some; [done|].
    apply HP. by rewrite player_of_to_map.
  - intros r c [_ Hwf _ _ _] HP _ _ k p. rewrite player_of_to_map. simpl.
    rewrite to_map_Remove by done. intros [_ Hk]%lookup_delete_Some.
    apply HP. by rewrite player_of_to_map.
  - intros r c h l [_ Hwf _ _ _] HP _ _ k p. rewrite player_of_to_map. simpl.
    rewrite to_map_Remove by done. intros [_ Hk]%lookup_delete_Some.
    apply HP. by rewrite player_of_to_map.
  - intros r now random _ HP k p. rewrite player_of_to_map. simpl.
    rewrite to_map_update_values. intros (q & <- & Hq)%lookup_fmap_Some.
    simpl. apply HP. by rewrite player_of_to_map.
  - intros r _ HP k p. rewrite player_of_to_map. simpl.
    rewrite to_map_update_values. intros (q & <- & Hq)%lookup_fmap_Some.
    simpl. apply HP. by rewrite player_of_to_map.
  - intros r c player word [_ Hwf _ _ _] HP _ Hp _ k p.
    rewrite player_of_to_map. simpl. rewrite to_map_update_at by done.
    destruct (decide (c = k)) as [->|Hck].
    + rewrite lookup_alter_eq. rewrite player_of_to_map in Hp. rewrite Hp.
      simpl. intros [= <-]. simpl. apply HP. by rewrite player_of_to_map.
    + rewrite lookup_alter_ne by done. intros Hk.
      apply HP. by rewrite player_of_to_map.
Qed.

(** The host of a stored room is on its roster. *)
Lemma host_on_roster svc id room :
  reachable svc →
  _rooms svc !! id = Some room →
  in_roster (HostConnectionId room) room.
Proof.
  intros Hreach Hroom. revert id room Hroom.
  apply (reachable_rooms_Forall (λ room, in_roster (HostConnectionId room) room));
    try done; unfold in_roster.
  - intros. simpl. rewrite Keys_set_empty. by left.
  - intros r c u [_ Hwf _ _ _] HP _ _ _. simpl. apply Keys_set; [done|by right].
  - intros r c [_ Hwf _ _ _] HP _ Hne. simpl. by apply Keys_Remove_elem.
  - intros r c h l _ _ _ HK. simpl. rewrite HK. by left.
  - intros r now random _ HP. simpl. by rewrite Keys_update_values.
  - intros r _ HP. simpl. by rewrite Keys_update_values.
  - intros r c player word [_ Hwf _ _ _] HP _ _ _. simpl.
    by rewrite Keys_update_at.
Qed.

(** X3: the host field of a stored room always names a member of the
    room, and that member's player object carries the host's connection
    id. *)
Theorem host_is_always_a_member svc id room :
  reachable svc →
  _rooms svc !! id = Some room →
  ∃ host, player_of room (HostConnectionId room) = Some host ∧
          ConnectionId host = HostConnectionId room.
Proof.
  intros Hreach Hroom.
  pose proof (host_on_roster _ _ _ Hreach Hroom) as Hin.
  apply Keys_TryGetValue in Hin as [host Hhost].
  exists host. split; [done|].
  by eapply players_keyed_by_connection.
Qed.

Lemma host_is_always_a_member_witness :
  ∃ room, _rooms Scenario.dave_joined !! "AAAAAA" = Some room ∧
  ∃ host, player_of room (HostConnectionId room) = Some host ∧
          ConnectionId host = HostConnectionId room.
Proof.
  destruct (_rooms Scenario.dave_joined !! "AAAAAA") as [room|] eqn:E;
    [|vm_compute in E; discriminate].
  exists room. split; [reflexivity|].
  exact (host_is_always_a_member Scenario.dave_joined "AAAAAA" room
           reachable_dave_joined E).
Defined.

Lemma filter_eq_singleton (l : list string) x :
  NoDup l → x ∈ l → List.length (filter (λ y, y = x) l) = 1%nat.
Proof.
  induction l as [|y l IH]; [by intros _ ?%elem_of_nil|].
  intros [Hy Hl]%NoDup_cons [->|Hin]%elem_of_cons.
  - rewrite filter_cons_True by done. simpl. f_equal.
    apply length_zero_iff_nil. apply elem_of_nil_inv.
    intros z [-> Hz]%list_elem_of_filter. done.
  - rewrite filter_cons_False by (intros ->; done). by apply IH.
Qed.

Lemma Values_connection_ids svc id room :
  reachable svc →
  _rooms svc !! id = Some room →
  ConnectionId <$> Dictionary.Values (Players room) = Dictionary.Keys (Players room).
Proof.
  intros Hreach Hroom.
  destruct (reachable_ok _ Hreach _ _ Hroom) as [_ Hwf _ _ _].
  pose proof (players_keyed_by_connection _ _ _ Hreach Hroom) as Hid.
  unfold Dictionary.Values, Dictionary.Keys.
  rewrite <- list_fmap_compose. apply list_fmap_ext.
  intros i [k p] Hi. simpl. apply Hid. rewrite player_of_to_map.
  apply elem_of_list_to_map_1; [apply Hwf|]. by eapply list_elem_of_lookup_2.
Qed.

(** X4: the snapshot of a stored room lists one player per roster entry,
    in roster order, and flags exactly one of them as host. *)
Theorem snapshot_flags_exactly_one_host svc id room now :
  reachable svc →
  _rooms svc !! id = Some room →
  ∃ dto, GameService.GetGameState id now svc = Some dto ∧
         pd_Username <$> gs_Players dto
         = Username <$> Dictionary.Values (Players room) ∧
         List.length (gs_Players dto) = Dictionary.Count (Players room) ∧
         List.length (filter (λ p, pd_IsHost p = true) (gs_Players dto)) = 1%nat.
Proof.
  intros Hreach Hroom.
  destruct (reachable_ok _ Hreach _ _ Hroom) as [_ Hwf _ _ _].
  unfold GameService.GetGameState, GameService.GetRoom. rewrite Hroom.
  eexists. split; [reflexivity|]. simpl. split; [|split].
  - rewrite <- list_fmap_compose. by apply list_fmap_ext.
  - rewrite length_fmap, Count_Keys by done.
    unfold Dictionary.Values, Dictionary.Keys. by rewrite !length_fmap.
  - rewrite <- (filter_eq_singleton (Dictionary.Keys (Players room))
                  (HostConnectionId room)).
    + rewrite <- (Values_connection_ids _ _ _ Hreach Hroom).
      generalize (Dictionary.Values (Players room)). intros l.
      induction l as [|p l IH]; [done|]. simpl.
      destruct (decide (ConnectionId p = HostConnectionId room)) as [Heq|Hne].
      * rewrite !filter_cons_True; [simpl; by f_equal|done|].
        simpl. by apply bool_decide_eq_true.
      * rewrite !filter_cons_False; [done|done|].
        simpl. intros Ht%bool_decide_eq_true. done.
    + apply Hwf.
    + by eapply host_on_roster.
Qed.

Lemma snapshot_flags_exactly_one_host_witness :
  ∃ room, _rooms Scenario.dave_joined !! "AAAAAA" = Some room ∧
  ∃ dto, GameService.GetGameState "AAAAAA" 0 Scenario.dave_joined = Some dto ∧
         pd_Username <$> gs_Players dto
         = Username <$> Dictionary.Values (Players room) ∧
         List.length (gs_Players dto) = Dictionary.Count (Players room) ∧
         List.length (filter (λ p, pd_IsHost p = true) (gs_Players dto)) = 1%nat.
Proof.
  destruct (_rooms Scenario.dave_joined !! "AAAAAA") as [room|] eqn:E;
    [|vm_compute in E; discriminate].
  exists room. split; [reflexivity|].
  exact (snapshot_flags_exactly_one_host Scenario.dave_joined "AAAAAA" room 0
           reachable_dave_joined E).
Defined.

(* ================================================================== *)
(** ** Scores and found words *)

Lemma to_int32_add_l a b : to_int32 (to_int32 a + b) = to_int32 (a + b).
Proof.
  unfold to_int32. f_equal.
  replace (((a + 2 ^ 31) mod 2 ^ 32 - 2 ^ 31) + b + 2 ^ 31)
    with ((a + 2 ^ 31) mod 2 ^ 32 + b) by lia.
  rewrite Zplus_mod_idemp_l. f_equal. lia.
Qed.

Lemma word_points_ToUpper w : GameHub.word_points (ToUpper w) = GameHub.word_points w.
Proof. unfold GameHub.word_points, Length. by rewrite ToUpper_length. Qed.

Lemma words_points_snoc ws w :
  words_points (ws ++ [w]) = words_points ws + GameHub.word_points w.
Proof.
  induction ws as [|x ws IH]; simpl; [lia|]. rewrite IH. lia.
Qed.

Lemma word_points_positive w : 1 ≤ GameHub.word_points w.
Proof. unfold GameHub.word_points. lia. Qed.

(** X5: a player's found words are distinct and upper-case, and the
    player's score is the sum of their points, in 32-bit arithmetic. *)
Theorem score_is_points_of_found_words svc id room c p :
  reachable svc →
  _rooms svc !! id = Some room →
  player_of room c = Some p →
  NoDup (FoundWords p) ∧
  (∀ w, w ∈ FoundWords p → ToUpper w = w) ∧
  Score p = to_int32 (words_points (FoundWords p)).
Proof.
  intros Hreach Hroom. revert c p. revert id room Hroom.
  apply (reachable_rooms_Forall
           (λ room, ∀ c p, player_of room c = Some p →
              NoDup (FoundWords p) ∧
              (∀ w, w ∈ FoundWords p → ToUpper w = w) ∧
              Score p = to_int32 (words_points (FoundWords p)))); try done.
  - intros n c u r s k p. rewrite player_of_to_map. simpl.
    rewrite to_map_set by apply wf_empty. rewrite to_map_empty.
    intros [[_ <-]|[_ ?]]%lookup_insert_Some; [|done]. simpl.
    split; [constructor|]. split; [by intros w ?%elem_of_nil|done].
  - intros r c u [_ Hwf _ _ _] HP _ _ _ k p. rewrite player_of_to_map. simpl.
    rewrite to_map_set by done.
    intros [[_ <-]|[_ Hk]]%lookup_insert_Some.
    + simpl. split; [constructor|]. split; [by intros w ?%elem_of_nil|done].
    + apply (HP k). by rewrite player_of_to_map.
  - intros r c [_ Hwf _ _ _] HP _ _ k p. rewrite player_of_to_map. simpl.
    rewrite to_map_Remove by done. intros [_ Hk]%lookup_delete_Some.
    apply (HP k). by rewrite player_of_to_map.
  - intros r c h l [_ Hwf _ _ _] HP _ _ k p. rewrite player_of_to_map. simpl.
    rewrite to_map_Remove by done. intros [_ Hk]%lookup_delete_Some.
    apply (HP k). by rewrite player_of_to_map.
  - intros r now random _ HP k p. rewrite player_of_to_map. simpl.
    rewrite to_map_update_values. intros (q & <- & Hq)%lookup_fmap_Some.
    simpl. split; [constructor|]. split; [by intros w ?%elem_of_nil|done].
  - intros r _ HP k p. rewrite player_of_to_map. simpl.
    rewrite to_map_update_values. intros (q & <- & Hq)%lookup_fmap_Some.
    simpl. split; [constructor|]. split; [by intros w ?%elem_of_nil|done].
  - intros r c player word [_ Hwf _ _ _] HP _ Hp Hnew k p.
    destruct (HP _ _ Hp) as (Hnd & Hup & Hsc).
    rewrite player_of_to_map in Hp.
    rewrite player_of_to_map. simpl. rewrite to_map_update_at by done.
    destruct (decide (c = k)) as [->|Hck].
    + rewrite lookup_alter_eq, Hp. simpl. intros [= <-]. simpl.
      split; [|split].
      * apply NoDup_app. split; [done|]. split; [|apply NoDup_singleton].
        intros w Hw ->%list_elem_of_singleton. done.
      * intros w [Hw| ->%list_elem_of_singleton]%elem_of_app; [by apply Hup|].
        apply ToUpper_idemp.
      * rewrite Hsc, to_int32_add_l, words_points_snoc.
        by rewrite word_points_ToUpper.
    + rewrite lookup_alter_ne by done. intros Hk.
      apply (HP k). by rewrite player_of_to_map.
Qed.

Lemma score_is_points_of_found_words_witness :
  ∃ room p, _rooms Scenario.scored !! "AAAAAA" = Some room ∧
            player_of room "c2" = Some p ∧
  NoDup (FoundWords p) ∧
  (∀ w, w ∈ FoundWords p → ToUpper w = w) ∧
  Score p = to_int32 (words_points (FoundWords p)).
Proof.
  destruct (_rooms Scenario.scored !! "AAAAAA") as [room|] eqn:E;
    [|vm_compute in E; discriminate].
  destruct (player_of room "c2") as [p|] eqn:Ep;
    [|vm_compute in E; injection E as <-; vm_compute in Ep; discriminate].
  exists room, p. split; [reflexivity|]. split; [exact Ep|].
  exact (score_is_points_of_found_words Scenario.scored "AAAAAA" room "c2" p
           reachable_scored E Ep).
Defined.

(** X6: a room in Waiting state is pristine: no start time, a blank
    board, and every player at score 0 with no found word. *)
Theorem waiting_room_is_pristine svc id room :
  reachable svc →
  _rooms svc !! id = Some room →
  State room = Waiting →
  GameStartTime room = None ∧
  Board room = new_Array2D 4 4 ∧
  ∀ c p, player_of room c = Some p → Score p = 0 ∧ FoundWords p = [].
Proof.
  intros Hreach Hroom. revert id room Hroom.
  apply (reachable_rooms_Forall
           (λ room, State room = Waiting →
              GameStartTime room = None ∧
              Board room = new_Array2D 4 4 ∧
              ∀ c p, player_of room c = Some p → Score p = 0 ∧ FoundWords p = []));
    [| | | | | | | |done].
  - intros n c u r s _. simpl. split; [done|]. split; [done|].
    intros k p. rewrite player_of_to_map. simpl.
    rewrite to_map_set by apply wf_empty. rewrite to_map_empty.
    by intros [[_ <-]|[_ ?]]%lookup_insert_Some.
  - intros r c u [_ Hwf _ _ _] HP Hst _ _ _.
    destruct (HP Hst) as (Ht & Hb & Hp). simpl. split; [done|]. split; [done|].
    intros k p. rewrite player_of_to_map. simpl. rewrite to_map_set by done.
    intros [[_ <-]|[_ Hk]]%lookup_insert_Some; [done|].
    apply (Hp k). by rewrite player_of_to_map.
  - intros r c [_ Hwf _ _ _] HP _ _ Hst.
    destruct (HP Hst) as (Ht & Hb & Hp). simpl. split; [done|]. split; [done|].
    intros k p. rewrite player_of_to_map. simpl. rewrite to_map_Remove by done.
    intros [_ Hk]%lookup_delete_Some. apply (Hp k). by rewrite player_of_to_map.
  - intros r c h l [_ Hwf _ _ _] HP _ _ Hst.
    destruct (HP Hst) as (Ht & Hb & Hp). simpl. split; [done|]. split; [done|].
    intros k p. rewrite player_of_to_map. simpl. rewrite to_map_Remove by done.
    intros [_ Hk]%lookup_delete_Some. apply (Hp k). by rewrite player_of_to_map.
  - (* a started room is not waiting *)
    intros r now random _ _ Hst. simpl in Hst. discriminate.
  - intros r _ _ _. simpl. split; [done|]. split; [done|].
    intros k p. rewrite player_of_to_map. simpl. rewrite to_map_update_values.
    by intros (q & <- & Hq)%lookup_fmap_Some.
  - intros r _ _ _ Hst. simpl in Hst. discriminate.
  - intros r c player word _ _ Hst _ _ Hst'. simpl in Hst'. congruence.
Qed.

Lemma waiting_room_is_pristine_witness :
  ∃ room, _rooms Scenario.reset !! "AAAAAA" = Some room ∧
  GameStartTime room = None ∧
  Board room = new_Array2D 4 4 ∧
  ∀ c p, player_of room c = Some p → Score p = 0 ∧ FoundWords p = [].
Proof.
  destruct (_rooms Scenario.reset !! "AAAAAA") as [room|] eqn:E;
    [|vm_compute in E; discriminate].
  exists room. split; [reflexivity|].
  apply (waiting_room_is_pristine Scenario.reset "AAAAAA" room).
  - apply reachable_run, reachable_finished.
  - exact E.
  - vm_compute in E. injection E as <-. reflexivity.
Defined.

(* ================================================================== *)
(** ** The round clock *)

(** The duration is never changed and a running round has a start time. *)
Lemma round_clock svc id room :
  reachable svc →
  _rooms svc !! id = Some room →
  GameDurationSeconds room = 180 ∧
  (State room = InProgress → is_Some (GameStartTime room)).
Proof.
  intros Hreach Hroom. revert id room Hroom.
  apply (reachable_rooms_Forall
           (λ room, GameDurationSeconds room = 180 ∧
                    (State room = InProgress → is_Some (GameStartTime room))));
    [| | | | | | | |done].
  - intros. simpl. split; [done|]. discriminate.
  - by intros r c u _ HP _ _ _.
  - by intros r c _ HP _ _.
  - by intros r c h l _ HP _ _.
  - intros r now random _ [Hd _]. simpl. split; [done|]. by eexists.
  - intros r _ [Hd _]. simpl. split; [done|]. discriminate.
  - intros r _ [Hd _] _. simpl. split; [done|]. discriminate.
  - by intros r c player word _ HP _ _ _.
Qed.

(** X7: the snapshot carries the remaining seconds exactly while the room
    is in progress. *)
Theorem remaining_seconds_present_iff_InProgress svc id room now :
  reachable svc →
  _rooms svc !! id = Some room →
  ∃ dto, GameService.GetGameState id now svc = Some dto ∧
         (is_Some (gs_RemainingSeconds dto) ↔ State room = InProgress).
Proof.
  intros Hreach Hroom.
  destruct (round_clock _ _ _ Hreach Hroom) as [_ Hstart].
  unfold GameService.GetGameState, GameService.GetRoom. rewrite Hroom.
  eexists. split; [reflexivity|]. simpl.
  case_bool_decide as Hst.
  - destruct (Hstart Hst) as [start ->]. split; [done|by eexists].
  - split; [by intros [? ?]|done].
Qed.

Lemma remaining_seconds_present_iff_InProgress_witness :
  ∃ room, _rooms Scenario.playing !! "AAAAAA" = Some room ∧
  ∃ dto, GameService.GetGameState "AAAAAA" 15000000 Scenario.playing = Some dto ∧
         (is_Some (gs_RemainingSeconds dto) ↔ State room = InProgress).
Proof.
  destruct (_rooms Scenario.playing !! "AAAAAA") as [room|] eqn:E;
    [|vm_compute in E; discriminate].
  exists room. split; [reflexivity|].
  exact (remaining_seconds_present_iff_InProgress Scenario.playing "AAAAAA" room
           15000000 reachable_playing E).
Defined.

Lemma elapsed_seconds_exact now start :
  start ≤ now → now - start < 2 ^ 31 * GameService.TicksPerSecond →
  GameService.elapsed_seconds now start = (now - start) `div` 10000000.
Proof.
  intros Hle Hlt. unfold GameService.elapsed_seconds, GameService.TicksPerSecond in *.
  rewrite Z.quot_div_nonneg by lia.
  apply to_int32_id. unfold is_int32, Int32_MinValue, Int32_MaxValue.
  assert (0 ≤ (now - start) `div` 10000000) by (apply Z.div_pos; lia).
  assert ((now - start) `div` 10000000 < 2 ^ 31)
    by (apply Z.div_lt_upper_bound; lia).
  lia.
Qed.

(** X8: while a round runs, the remaining seconds are
    [max 0 (180 - whole seconds since the start)]: 180 at the start,
    never negative, never increasing as the clock advances, and 0 from
    180 seconds on. *)
Theorem remaining_seconds_count_down svc id room start now1 now2 :
  reachable svc →
  _rooms svc !! id = Some room →
  State room = InProgress →
  GameStartTime room = Some start →
  start ≤ now1 → now1 ≤ now2 →
  now2 - start < 2 ^ 31 * GameService.TicksPerSecond →
  ∃ dto1 dto2 r1 r2,
    GameService.GetGameState id now1 svc = Some dto1 ∧
    GameService.GetGameState id now2 svc = Some dto2 ∧
    gs_RemainingSeconds dto1 = Some r1 ∧
    gs_RemainingSeconds dto2 = Some r2 ∧
    r1 = Z.max 0 (180 - (now1 - start) `div` 10000000) ∧
    0 ≤ r2 ∧ r2 ≤ r1 ∧ r1 ≤ 180 ∧
    (now1 = start → r1 = 180) ∧
    (start + 180 * GameService.TicksPerSecond ≤ now2 → r2 = 0).
Proof.
  intros Hreach Hroom Hst Hstart H1 H12 Hfit.
  destruct (round_clock _ _ _ Hreach Hroom) as [Hd _].
  assert (∀ now, start ≤ now → now - start < 2 ^ 31 * GameService.TicksPerSecond →
            ∃ dto, GameService.GetGameState id now svc = Some dto ∧
                   gs_RemainingSeconds dto
                   = Some (Z.max 0 (180 - (now - start) `div` 10000000))) as Hrem.
  { intros now Hle Hlt.
    unfold GameService.GetGameState, GameService.GetRoom. rewrite Hroom.
    eexists. split; [reflexivity|]. simpl.
    rewrite bool_decide_eq_true_2 by done. rewrite Hstart, Hd.
    rewrite elapsed_seconds_exact by done. do 2 f_equal.
    apply to_int32_id. unfold is_int32, Int32_MinValue, Int32_MaxValue.
    unfold GameService.TicksPerSecond in *.
    assert (0 ≤ (now - start) `div` 10000000) by (apply Z.div_pos; lia).
    assert ((now - start) `div` 10000000 < 2 ^ 31)
      by (apply Z.div_lt_upper_bound; lia).
    lia. }
  unfold GameService.TicksPerSecond in *.
  destruct (Hrem now1) as (dto1 & Hd1 & Hr1); [lia|lia|].
  destruct (Hrem now2) as (dto2 & Hd2 & Hr2); [lia|lia|].
  eexists dto1, dto2, _, _. split; [done|]. split; [done|].
  split; [exact Hr1|]. split; [exact Hr2|]. split; [done|].
  assert (0 ≤ (now1 - start) `div` 10000000) by (apply Z.div_pos; lia).
  assert ((now1 - start) `div` 10000000 ≤ (now2 - start) `div` 10000000)
    by (apply Z.div_le_mono; lia).
  repeat split; try lia.
  - intros ->. replace (start - start) with 0 by lia. done.
  - intros Hend.
    assert (180 ≤ (now2 - start) `div` 10000000)
      by (apply Z.div_le_lower_bound; lia).
    lia.
Qed.

Lemma remaining_seconds_count_down_witness :
  ∃ room, _rooms Scenario.playing !! "AAAAAA" = Some room ∧
  ∃ dto1 dto2 r1 r2,
    GameService.GetGameState "AAAAAA" 15000000 Scenario.playing = Some dto1 ∧
    GameService.GetGameState "AAAAAA" 1800000000 Scenario.playing = Some dto2 ∧
    gs_RemainingSeconds dto1 = Some r1 ∧
    gs_RemainingSeconds dto2 = Some r2 ∧
    r1 = Z.max 0 (180 - (15000000 - 0) `div` 10000000) ∧
    0 ≤ r2 ∧ r2 ≤ r1 ∧ r1 ≤ 180 ∧
    (15000000 = 0 → r1 = 180) ∧
    (0 + 180 * GameService.TicksPerSecond ≤ 1800000000 → r2 = 0).
Proof.
  destruct (_rooms Scenario.playing !! "AAAAAA") as [room|] eqn:E;
    [|vm_compute in E; discriminate].
  exists room. split; [reflexivity|].
  assert (State room = InProgress ∧ GameStartTime room = Some 0) as [Hst Hstart].
  { vm_compute in E. injection E as <-. by vm_compute. }
  apply (remaining_seconds_count_down Scenario.playing "AAAAAA" room 0
           15000000 1800000000 reachable_playing E Hst Hstart).
  - lia.
  - lia.
  - vm_compute. reflexivity.
Defined.

(* ================================================================== *)
(** ** Leaving a room *)

(** X9: when [LeaveRoom] is called by a session that the session index
    resolves to a room, and the roster of that room holds no other
    session, the call succeeds without a room to report, the room is
    deleted from the registry and the session from the index, and the
    index resolves the session to no room afterwards. *)
Theorem LeaveRoom_last_member_deletes_room svc c room :
  reachable svc →
  GameService.GetRoomByConnectionId c svc = Some room →
  (∀ x, in_roster x room → x = c) →
  GameService.LeaveRoom c svc
  = (Returned (true, None, None),
     mkGameService (delete (RoomId room) (_rooms svc)) (delete c (_playerRooms svc))) ∧
  GameService.GetRoom (RoomId room) (GameService.LeaveRoom c svc).2 = None ∧
  GameService.GetRoomByConnectionId c (GameService.LeaveRoom c svc).2 = None.
Proof.
  intros Hreach Hroom Honly.
  destruct (GetRoomByConnectionId_stored _ _ _ (reachable_ok _ Hreach) Hroom)
    as (Hr & Hi & [_ Hwf _ _ _]).
  assert (GameService.LeaveRoom c svc
          = (Returned (true, None, None),
             mkGameService (delete (RoomId room) (_rooms svc))
                           (delete c (_playerRooms svc)))) as Heq.
  { unfold GameService.LeaveRoom. rewrite Hi. simpl. rewrite Hr. simpl.
    assert (Dictionary.Keys (Dictionary.Remove (Players room) c) = []) as HK.
    { apply elem_of_nil_inv. intros x [Hne Hx]%Keys_Remove_elem; [|done].
      apply Hne. by apply Honly. }
    apply Count_zero in HK; [|by apply wf_Remove]. rewrite HK. simpl.
    unfold with_rooms. simpl. by rewrite delete_insert_eq. }
  rewrite Heq. split; [done|]. simpl. split.
  - unfold GameService.GetRoom. simpl. apply lookup_delete_eq.
  - unfold GameService.GetRoomByConnectionId. simpl. by rewrite lookup_delete_eq.
Qed.

Lemma LeaveRoom_last_member_deletes_room_witness :
  ∃ room, GameService.GetRoomByConnectionId "c1" Scenario.lobby = Some room ∧
  GameService.LeaveRoom "c1" Scenario.lobby
  = (Returned (true, None, None),
     mkGameService (delete (RoomId room) (_rooms Scenario.lobby))
                   (delete "c1" (_playerRooms Scenario.lobby))) ∧
  GameService.GetRoom (RoomId room) (GameService.LeaveRoom "c1" Scenario.lobby).2
  = None ∧
  GameService.GetRoomByConnectionId "c1" (GameService.LeaveRoom "c1" Scenario.lobby).2
  = None.
Proof.
  destruct (GameService.GetRoomByConnectionId "c1" Scenario.lobby)
    as [room|] eqn:E; [|vm_compute in E; discriminate].
  exists room. split; [reflexivity|].
  apply (LeaveRoom_last_member_deletes_room Scenario.lobby "c1" room
           reachable_lobby E).
  vm_compute in E. injection E as <-. unfold in_roster. vm_compute.
  intros x Hx. inversion Hx as [|? ? ? Hx']; [reflexivity|inversion Hx'].
Defined.

(** X10: when [LeaveRoom] is called by a session that the session index
    resolves to a room whose host field holds another session, the call
    succeeds and reports the room with no new host; host field, state and
    board of the room stay, the room holds no player object for the
    leaver any more, the leaver is out of the index, and every other
    player object is untouched. *)
Theorem LeaveRoom_member_keeps_host svc c room :
  reachable svc →
  GameService.GetRoomByConnectionId c svc = Some room →
  HostConnectionId room ≠ c →
  ∃ room',
    GameService.LeaveRoom c svc
    = (Returned (true, Some room', None),
       mkGameService (<[RoomId room := room']> (_rooms svc))
                     (delete c (_playerRooms svc))) ∧
    HostConnectionId room' = HostConnectionId room ∧
    State room' = State room ∧ Board room' = Board room ∧
    player_of room' c = None ∧
    (∀ x, x ≠ c → player_of room' x = player_of room x).
Proof.
  intros Hreach Hroom Hhost.
  pose proof (reachable_ok _ Hreach) as Hok.
  destruct (GetRoomByConnectionId_stored _ _ _ Hok Hroom)
    as (Hr & Hi & [_ Hwf _ _ _]).
  pose proof (host_on_roster _ _ _ Hreach Hr) as Hin.
  exists (with_Players (Dictionary.Remove (Players room) c) room). split.
  - unfold GameService.LeaveRoom. rewrite Hi. simpl. rewrite Hr. simpl.
    assert ((Dictionary.Count (Dictionary.Remove (Players room) c) =? 0)%nat = false)
      as ->.
    { apply Nat.eqb_neq. rewrite Count_zero by by apply wf_Remove.
      intros HK.
      assert (HostConnectionId room ∈ Dictionary.Keys
                (Dictionary.Remove (Players room) c)) as Hh
        by by apply Keys_Remove_elem.
      rewrite HK in Hh. by apply elem_of_nil in Hh. }
    by rewrite bool_decide_eq_false_2.
  - simpl. repeat split; try done.
    + rewrite player_of_to_map. simpl. rewrite to_map_Remove by done.
      apply lookup_delete_eq.
    + intros x Hx. rewrite !player_of_to_map. simpl.
      rewrite to_map_Remove by done. by apply lookup_delete_ne.
Qed.

Lemma LeaveRoom_member_keeps_host_witness :
  ∃ room, GameService.GetRoomByConnectionId "c2" Scenario.scored = Some room ∧
  ∃ room',
    GameService.LeaveRoom "c2" Scenario.scored
    = (Returned (true, Some room', None),
       mkGameService (<[RoomId room := room']> (_rooms Scenario.scored))
                     (delete "c2" (_playerRooms Scenario.scored))) ∧
    HostConnectionId room' = HostConnectionId room ∧
    State room' = State room ∧ Board room' = Board room ∧
    player_of room' "c2" = None ∧
    (∀ x, x ≠ "c2" → player_of room' x = player_of room x).
Proof.
  destruct (GameService.GetRoomByConnectionId "c2" Scenario.scored)
    as [room|] eqn:E; [|vm_compute in E; discriminate].
  exists room. split; [reflexivity|].
  apply (LeaveRoom_member_keeps_host Scenario.scored "c2" room reachable_scored E).
  vm_compute in E. injection E as <-. vm_compute. discriminate.
Defined.

(** X11: in a reachable state [LeaveRoom] never throws: [Keys.First()] is
    only reached on a roster that still has a member. *)
Theorem LeaveRoom_never_throws svc c :
  reachable svc →
  ∃ success room newHostId,
    (GameService.LeaveRoom c svc).1 = Returned (success, room, newHostId) ∧
    (success = false → room = None ∧ newHostId = None) ∧
    (is_Some newHostId → is_Some room).
Proof.
  intros Hreach. pose proof (reachable_ok _ Hreach) as Hok.
  unfold GameService.LeaveRoom.
  destruct (_playerRooms svc !! c) as [roomId|]; [|by eexists _, _, _]. simpl.
  destruct (_rooms svc !! roomId) as [room|] eqn:E; [|by eexists _, _, _].
  destruct (Hok _ _ E) as [_ Hwf _ _ _].
  destruct (Nat.eqb_spec (Dictionary.Count (Dictionary.Remove (Players room) c)) 0)
    as [Hz|Hnz]; simpl.
  { eexists _, _, _. split; [done|]. split; [done|]. by intros [? ?]. }
  case_bool_decide.
  - destruct (Dictionary.Keys (Dictionary.Remove (Players room) c)) eqn:EK.
    + exfalso. apply Hnz. apply Count_zero; [by apply wf_Remove|done].
    + eexists _, _, _. split; [done|]. split; [done|]. by eexists.
  - eexists _, _, _. split; [done|]. split; [done|]. by intros [? ?].
Qed.

Lemma LeaveRoom_never_throws_witness :
  ∃ success room newHostId,
    (GameService.LeaveRoom "c1" Scenario.dave_joined).1
    = Returned (success, room, newHostId) ∧
    (success = false → room = None ∧ newHostId = None) ∧
    (is_Some newHostId → is_Some room).
Proof.
  exact (LeaveRoom_never_throws Scenario.dave_joined "c1" reachable_dave_joined).
Defined.

(* ================================================================== *)
(** ** Starting, ending and resetting a round *)

(** X12: [StartGame] finds the caller's room through the session index
    alone.  It is rejected with "Room not found" when the index resolves
    the session to no room, and with "Only the host can start the game"
    when the host field of the room the index resolves it to holds
    another session; nothing changes then.  When the host field of that
    room holds the caller, the call succeeds whatever the state of the
    room, and the started room replaces the room under its code.  The
    rejection for an empty roster never occurs in a reachable state. *)
Theorem StartGame_outcomes svc c now random :
  reachable svc →
  (GameService.GetRoomByConnectionId c svc = None →
   GameService.StartGame c now random svc = ((false, "Room not found", None), svc)) ∧
  (∀ room, GameService.GetRoomByConnectionId c svc = Some room →
     (HostConnectionId room ≠ c →
      GameService.StartGame c now random svc
      = ((false, "Only the host can start the game", None), svc)) ∧
     (HostConnectionId room = c →
      GameService.StartGame c now random svc
      = ((true, "Game started", Some (started_room now random room)),
         mkGameService (<[RoomId room := started_room now random room]> (_rooms svc))
                       (_playerRooms svc)))).
Proof.
  intros Hreach. split.
  { intros Hnone. unfold GameService.StartGame. by rewrite Hnone. }
  intros room Hroom.
  destruct (GetRoomByConnectionId_stored _ _ _ (reachable_ok _ Hreach) Hroom)
    as (_ & _ & [_ Hwf Hne _ _]).
  unfold GameService.StartGame. rewrite Hroom. split.
  - intros Hhost. by rewrite bool_decide_eq_true_2.
  - intros Hhost. rewrite bool_decide_eq_false_2 by (intros ?; done).
    assert ((Dictionary.Count (Players room) <? 1)%nat = false) as ->; [|done].
    apply Nat.ltb_ge. rewrite Count_Keys by done.
    destruct (Dictionary.Keys (Players room)); [done|simpl; lia].
Qed.

Lemma StartGame_outcomes_witness :
  GameService.StartGame "c9" 0 Scenario.dice_a Scenario.two_players
  = ((false, "Room not found", None), Scenario.two_players) ∧
  GameService.StartGame "c2" 0 Scenario.dice_a Scenario.two_players
  = ((false, "Only the host can start the game", None), Scenario.two_players) ∧
  ∃ room, GameService.GetRoomByConnectionId "c1" Scenario.two_players = Some room ∧
  GameService.StartGame "c1" 0 Scenario.dice_a Scenario.two_players
  = ((true, "Game started", Some (started_room 0 Scenario.dice_a room)),
     mkGameService
       (<[RoomId room := started_room 0 Scenario.dice_a room]>
          (_rooms Scenario.two_players))
       (_playerRooms Scenario.two_players)).
Proof.
  split; [|split].
  - apply (proj1 (StartGame_outcomes Scenario.two_players "c9" 0 Scenario.dice_a
                    reachable_two_players)).
    vm_compute. reflexivity.
  - destruct (GameService.GetRoomByConnectionId "c2" Scenario.two_players)
      as [room|] eqn:E; [|vm_compute in E; discriminate].
    apply (proj1 (proj2 (StartGame_outcomes Scenario.two_players "c2" 0
                           Scenario.dice_a reachable_two_players) room E)).
    vm_compute in E. injection E as <-. vm_compute. discriminate.
  - destruct (GameService.GetRoomByConnectionId "c1" Scenario.two_players)
      as [room|] eqn:E; [|vm_compute in E; discriminate].
    exists room. split; [reflexivity|].
    apply (proj2 (proj2 (StartGame_outcomes Scenario.two_players "c1" 0
                           Scenario.dice_a reachable_two_players) room E)).
    vm_compute in E. injection E as <-. reflexivity.
Defined.

(** X13: the snapshot read at the instant of a successful [StartGame]
    shows the room in progress with the generated board, 180 seconds
    remaining, the same players in the same order, and every score 0. *)
Theorem snapshot_after_StartGame svc c now random room :
  reachable svc →
  GameService.GetRoomByConnectionId c svc = Some room →
  HostConnectionId room = c →
  ∃ dto,
    GameService.GetGameState (RoomId room) now
      (GameService.StartGame c now random svc).2 = Some dto ∧
    gs_State dto = InProgress ∧
    gs_Board dto
    = Some (LetterGenerator.ToJaggedArray (LetterGenerator.GenerateBoard random)) ∧
    gs_RemainingSeconds dto = Some 180 ∧
    pd_Username <$> gs_Players dto = Username <$> Dictionary.Values (Players room) ∧
    Forall (λ p, pd_Score p = 0) (gs_Players dto).
Proof.
  intros Hreach Hroom Hhost.
  destruct (GetRoomByConnectionId_stored _ _ _ (reachable_ok _ Hreach) Hroom)
    as (Hr & _ & [_ Hwf Hne _ _]).
  destruct (round_clock _ _ _ Hreach Hr) as [Hd _].
  assert (GameService.StartGame c now random svc
          = ((true, "Game started", Some (started_room now random room)),
             mkGameService
               (<[RoomId room := started_room now random room]> (_rooms svc))
               (_playerRooms svc))) as ->.
  { unfold GameService.StartGame. rewrite Hroom.
    rewrite bool_decide_eq_false_2 by (intros ?; done).
    assert ((Dictionary.Count (Players room) <? 1)%nat = false) as ->; [|done].
    apply Nat.ltb_ge. rewrite Count_Keys by done.
    destruct (Dictionary.Keys (Players room)); [done|simpl; lia]. }
  unfold GameService.GetGameState, GameService.GetRoom. simpl.
  rewrite lookup_insert_eq. eexists. split; [reflexivity|]. simpl.
  split; [done|]. split; [done|]. split; [|split].
  - rewrite Hd. unfold GameService.elapsed_seconds.
    replace (now - now) with 0 by lia. done.
  - rewrite Values_update_values, <- !list_fmap_compose. by apply list_fmap_ext.
  - rewrite Values_update_values, <- list_fmap_compose.
    apply Forall_fmap, Forall_true. done.
Qed.

Lemma snapshot_after_StartGame_witness :
  ∃ room, GameService.GetRoomByConnectionId "c1" Scenario.two_players = Some room ∧
  ∃ dto,
    GameService.GetGameState (RoomId room) 0
      (GameService.StartGame "c1" 0 Scenario.dice_a Scenario.two_players).2
    = Some dto ∧
    gs_State dto = InProgress ∧
    gs_Board dto
    = Some (LetterGenerator.ToJaggedArray
              (LetterGenerator.GenerateBoard Scenario.dice_a)) ∧
    gs_RemainingSeconds dto = Some 180 ∧
    pd_Username <$> gs_Players dto = Username <$> Dictionary.Values (Players room) ∧
    Forall (λ p, pd_Score p = 0) (gs_Players dto).
Proof.
  destruct (GameService.GetRoomByConnectionId "c1" Scenario.two_players)
    as [room|] eqn:E; [|vm_compute in E; discriminate].
  exists room. split; [reflexivity|].
  apply (snapshot_after_StartGame Scenario.two_players "c1" 0 Scenario.dice_a room
           reachable_two_players E).
  vm_compute in E. injection E as <-. reflexivity.
Defined.

(** X14: [ResetGame] by a session that the session index resolves to a
    room.  When the host field of that room holds another session, the
    call is rejected with "Only the host can reset the game" and changes
    nothing.  When it holds the caller, the call succeeds in any state:
    the room goes back to Waiting with a blank board and no start time,
    the reply and the broadcast carry the same snapshot, which has no
    board, no remaining time, the same players, and every score 0 and
    every ready flag off. *)
Theorem ResetGame_outcomes svc c now room :
  reachable svc →
  GameService.GetRoomByConnectionId c svc = Some room →
  (HostConnectionId room ≠ c →
   GameHub.ResetGame c now svc
   = (Failure "Only the host can reset the game", [], svc)) ∧
  (HostConnectionId room = c →
   ∃ dto,
     GameHub.ResetGame c now svc
     = (SuccessState (Some dto), [GameReset (RoomId room) (Some dto)],
        mkGameService (<[RoomId room := reset_room room]> (_rooms svc))
                      (_playerRooms svc)) ∧
     gs_State dto = Waiting ∧ gs_Board dto = None ∧
     gs_RemainingSeconds dto = None ∧
     pd_Username <$> gs_Players dto = Username <$> Dictionary.Values (Players room) ∧
     Forall (λ p, pd_Score p = 0 ∧ pd_IsReady p = false) (gs_Players dto)).
Proof.
  intros Hreach Hroom.
  destruct (GetRoomByConnectionId_stored _ _ _ (reachable_ok _ Hreach) Hroom)
    as (Hr & _ & _).
  unfold GameHub.ResetGame. rewrite Hroom. split.
  - intros Hhost. by rewrite bool_decide_eq_true_2.
  - intros Hhost. rewrite bool_decide_eq_false_2 by (intros ?; done).
    unfold GameService.ResetRoom. rewrite Hr.
    unfold GameService.GetGameState, GameService.GetRoom. simpl.
    rewrite lookup_insert_eq. eexists. split; [reflexivity|]. simpl.
    split; [done|]. split; [done|]. split; [done|]. split.
    + rewrite Values_update_values, <- !list_fmap_compose. by apply list_fmap_ext.
    + rewrite Values_update_values, <- list_fmap_compose.
      apply Forall_fmap, Forall_true. done.
Qed.

Lemma ResetGame_outcomes_witness :
  GameHub.ResetGame "c2" 1900000000 Scenario.finished
  = (Failure "Only the host can reset the game", [], Scenario.finished) ∧
  ∃ room, GameService.GetRoomByConnectionId "c1" Scenario.finished = Some room ∧
  ∃ dto,
    GameHub.ResetGame "c1" 1900000000 Scenario.finished
    = (SuccessState (Some dto), [GameReset (RoomId room) (Some dto)],
       mkGameService (<[RoomId room := reset_room room]> (_rooms Scenario.finished))
                     (_playerRooms Scenario.finished)) ∧
    gs_State dto = Waiting ∧ gs_Board dto = None ∧
    gs_RemainingSeconds dto = None ∧
    pd_Username <$> gs_Players dto = Username <$> Dictionary.Values (Players room) ∧
    Forall (λ p, pd_Score p = 0 ∧ pd_IsReady p = false) (gs_Players dto).
Proof.
  split.
  - destruct (GameService.GetRoomByConnectionId "c2" Scenario.finished)
      as [room|] eqn:E; [|vm_compute in E; discriminate].
    apply (proj1 (ResetGame_outcomes Scenario.finished "c2" 1900000000 room
                    reachable_finished E)).
    vm_compute in E. injection E as <-. vm_compute. discriminate.
  - destruct (GameService.GetRoomByConnectionId "c1" Scenario.finished)
      as [room|] eqn:E; [|vm_compute in E; discriminate].
    exists room. split; [reflexivity|].
    apply (proj2 (ResetGame_outcomes Scenario.finished "c1" 1900000000 room
                    reachable_finished E)).
    vm_compute in E. injection E as <-. reflexivity.
Defined.

(** X15: when the round timer fires for a room in progress, the room
    becomes Finished with players and board untouched and the session
    index unchanged, but no GameEnded message is sent: the timer's action
    throws ObjectDisposedException when it reads [Clients] on the disposed
    hub.  A snapshot read in the state so reached is Finished, without
    board or remaining time, with the scores as they were, and the
    timer's action run again in that state does nothing. *)
Theorem EndGameInternal_ends_round_silently svc roomId room now now' :
  _rooms svc !! roomId = Some room →
  State room = InProgress →
  ∃ svc',
    GameHub.EndGameInternal roomId now svc
    = (Threw "ObjectDisposedException", [], svc') ∧
    _rooms svc' = <[roomId := with_State Finished room]> (_rooms svc) ∧
    _playerRooms svc' = _playerRooms svc ∧
    (∃ dto,
       GameService.GetGameState roomId now' svc' = Some dto ∧
       gs_State dto = Finished ∧ gs_Board dto = None ∧
       gs_RemainingSeconds dto = None ∧
       pd_Score <$> gs_Players dto = Score <$> Dictionary.Values (Players room)) ∧
    GameHub.EndGameInternal roomId now' svc' = (Returned (), [], svc').
Proof.
  intros Hroom Hst.
  unfold GameHub.EndGameInternal at 1. unfold GameService.GetRoom. rewrite Hroom.
  rewrite bool_decide_eq_false_2 by (intros ?; done).
  unfold GameService.EndGame. rewrite Hroom.
  eexists. split; [reflexivity|]. simpl.
  split; [done|]. split; [done|]. split.
  - unfold GameService.GetGameState, GameService.GetRoom. simpl.
    rewrite lookup_insert_eq. eexists. split; [reflexivity|]. simpl.
    repeat split. rewrite <- list_fmap_compose. by apply list_fmap_ext.
  - unfold GameHub.EndGameInternal, GameService.GetRoom. simpl.
    by rewrite lookup_insert_eq.
Qed.

Lemma EndGameInternal_ends_round_silently_witness :
  ∃ room, _rooms Scenario.scored !! "AAAAAA" = Some room ∧
  ∃ svc',
    GameHub.EndGameInternal "AAAAAA" 1800000000 Scenario.scored
    = (Threw "ObjectDisposedException", [], svc') ∧
    _rooms svc' = <["AAAAAA" := with_State Finished room]> (_rooms Scenario.scored) ∧
    _playerRooms svc' = _playerRooms Scenario.scored ∧
    (∃ dto,
       GameService.GetGameState "AAAAAA" 3600000000 svc' = Some dto ∧
       gs_State dto = Finished ∧ gs_Board dto = None ∧
       gs_RemainingSeconds dto = None ∧
       pd_Score <$> gs_Players dto = Score <$> Dictionary.Values (Players room)) ∧
    GameHub.EndGameInternal "AAAAAA" 3600000000 svc' = (Returned (), [], svc').
Proof.
  destruct (_rooms Scenario.scored !! "AAAAAA") as [room|] eqn:E;
    [|vm_compute in E; discriminate].
  exists room. split; [reflexivity|].
  apply (EndGameInternal_ends_round_silently Scenario.scored "AAAAAA" room
           1800000000 3600000000 E).
  vm_compute in E. injection E as <-. reflexivity.
Defined.

(** X16: in the state the round timer's action leaves when it has just
    run for the room the session index resolves a session to, every word
    that session submits is rejected with "Game not in progress", and
    nothing is sent or changed. *)
Theorem SubmitWord_rejected_after_round_end svc c room now word :
  reachable svc →
  GameService.GetRoomByConnectionId c svc = Some room →
  let svc' := (GameHub.EndGameInternal (RoomId room) now svc).2 in
  GameHub.SubmitWord c word svc'
  = (Returned (Failure "Game not in progress"), [], svc').
Proof.
  intros Hreach Hroom.
  destruct (GetRoomByConnectionId_stored _ _ _ (reachable_ok _ Hreach) Hroom)
    as (Hr & Hi & _).
  unfold GameHub.EndGameInternal, GameService.GetRoom. rewrite Hr.
  case_bool_decide as Hst; simpl.
  - unfold GameHub.SubmitWord. rewrite Hroom. by rewrite bool_decide_eq_true_2.
  - unfold GameService.EndGame. rewrite Hr. unfold GameHub.SubmitWord.
    unfold GameService.GetRoomByConnectionId, GameService.GetRoom. simpl.
    rewrite Hi, lookup_insert_eq. simpl. done.
Qed.

Lemma SubmitWord_rejected_after_round_end_witness :
  ∃ room, GameService.GetRoomByConnectionId "c2" Scenario.scored = Some room ∧
  let svc' := (GameHub.EndGameInternal (RoomId room) 1800000000 Scenario.scored).2 in
  GameHub.SubmitWord "c2" "dog" svc'
  = (Returned (Failure "Game not in progress"), [], svc').
Proof.
  destruct (GameService.GetRoomByConnectionId "c2" Scenario.scored)
    as [room|] eqn:E; [|vm_compute in E; discriminate].
  exists room. split; [reflexivity|].
  exact (SubmitWord_rejected_after_round_end Scenario.scored "c2" room 1800000000
           "dog" reachable_scored E).
Defined.

(** X17: in a run in which sessions create and join rooms only while they
    are in no room, [SubmitWord] never throws: an indexed session always
    has a player object in its room. *)
Theorem SubmitWord_never_throws_in_disciplined_run ops c word :
  disciplined new_GameService ops →
  ∃ reply, (GameHub.SubmitWord c word (run ops new_GameService)).1.1 = Returned reply.
Proof.
  intros Hd. set (svc := run ops new_GameService).
  assert (service_ok svc) as Hok by apply run_ok, service_ok_new.
  assert (index_lockstep svc) as Hlock
    by (apply run_lockstep; [apply service_ok_new|apply index_lockstep_new|done]).
  unfold GameHub.SubmitWord.
  destruct (GameService.GetRoomByConnectionId c svc) as [room|] eqn:E;
    [|by eexists].
  destruct (GetRoomByConnectionId_stored _ _ _ Hok E) as (Hr & Hi & _).
  case_bool_decide; [by eexists|].
  destruct (index_sound _ Hlock _ _ Hi) as (room' & Hr' & Hin).
  assert (room' = room) as -> by congruence.
  apply Keys_TryGetValue in Hin as [player Hp]. rewrite Hp.
  case_bool_decide; by eexists.
Qed.

Lemma SubmitWord_never_throws_in_disciplined_run_witness :
  ∃ reply,
    (GameHub.SubmitWord "c2" "cat"
       (run [OpCreateRoom "Word Warriors" "c1" "alice" Scenario.zeros;
             OpJoinRoom "AAAAAA" "c2" "bob";
             OpStartGame "c1" 0 Scenario.dice_a] new_GameService)).1.1
    = Returned reply.
Proof.
  apply (SubmitWord_never_throws_in_disciplined_run
           [OpCreateRoom "Word Warriors" "c1" "alice" Scenario.zeros;
            OpJoinRoom "AAAAAA" "c2" "bob";
            OpStartGame "c1" 0 Scenario.dice_a] "c2" "cat").
  vm_compute. repeat split; by left.
Defined.

(* ================================================================== *)
(** ** The list of joinable rooms *)

Lemma NoDup_RoomId_filter (P : GameRoom → Prop) `{∀ r, Decision (P r)}
    (l : list (string * GameRoom)) :
  NoDup l.*1 →
  (∀ k r, (k, r) ∈ l → RoomId r = k) →
  NoDup (RoomId <$> filter P l.*2).
Proof.
  induction l as [|[k r] l IH]; [constructor|].
  simpl. intros [Hk Hl]%NoDup_cons Hid.
  assert (NoDup (RoomId <$> filter P l.*2)) as Hrest.
  { apply IH; [done|]. intros k' r' Hin. apply Hid. by right. }
  destruct (decide (P r)) as [HP|HP].
  - rewrite filter_cons_True by done. simpl. apply NoDup_cons. split; [|done].
    intros (r' & Heq & [_ Hr']%list_elem_of_filter)%list_elem_of_fmap.
    apply list_elem_of_fmap in Hr' as ([k' r''] & -> & Hin).
    apply Hk. simpl in Heq.
    assert (RoomId r = k) as Hr by (apply Hid; by left).
    assert (RoomId r'' = k') as Hr'' by (apply Hid; by right).
    assert (k = k') as -> by congruence.
    apply list_elem_of_fmap. by exists (k', r'').
  - by rewrite filter_cons_False.
Qed.

(** X18: [GetAvailableRooms] lists exactly the stored rooms that are in
    Waiting state, each once, with the room's code and name, its player
    count, and the display name of its host (never "Unknown"). *)
Theorem GetAvailableRooms_lists_waiting_rooms svc :
  reachable svc →
  (∀ dto, dto ∈ GameService.GetAvailableRooms svc ↔
     ∃ room host,
       _rooms svc !! dto_RoomId dto = Some room ∧
       State room = Waiting ∧
       player_of room (HostConnectionId room) = Some host ∧
       dto = {| dto_RoomId := RoomId room;
                dto_RoomName := RoomName room;
                dto_PlayerCount := Dictionary.Count (Players room);
                dto_State := Waiting;
                dto_HostUsername := Username host |}) ∧
  NoDup (dto_RoomId <$> GameService.GetAvailableRooms svc).
Proof.
  intros Hreach. pose proof (reachable_ok _ Hreach) as Hok.
  unfold GameService.GetAvailableRooms. split.
  - intros dto. rewrite list_elem_of_fmap. split.
    + intros (room & -> & [Hst Hin]%list_elem_of_filter).
      apply list_elem_of_fmap in Hin as ([id room'] & -> & Hin).
      apply elem_of_map_to_list in Hin. simpl in *.
      destruct (Hok _ _ Hin) as [Hid _ _ _ _].
      pose proof (host_on_roster _ _ _ Hreach Hin) as Hhost.
      apply Keys_TryGetValue in Hhost as [host Hhost].
      exists room', host. simpl. rewrite Hid. split; [done|]. split; [done|].
      split; [done|]. by rewrite Hhost, Hst.
    + intros (room & host & Hr & Hst & Hhost & ->). simpl in Hr.
      exists room. unfold player_of in Hhost. rewrite Hhost, Hst.
      split; [done|]. apply list_elem_of_filter. split; [done|].
      apply list_elem_of_fmap. exists (RoomId room, room). split; [done|].
      by apply elem_of_map_to_list.
  - rewrite <- list_fmap_compose.
    apply (NoDup_RoomId_filter (λ r, State r = Waiting)).
    + apply NoDup_fst_map_to_list.
    + intros k r Hin%elem_of_map_to_list. by destruct (Hok _ _ Hin).
Qed.

Lemma GetAvailableRooms_lists_waiting_rooms_witness :
  (∀ dto, dto ∈ GameService.GetAvailableRooms Scenario.two_rooms ↔
     ∃ room host,
       _rooms Scenario.two_rooms !! dto_RoomId dto = Some room ∧
       State room = Waiting ∧
       player_of room (HostConnectionId room) = Some host ∧
       dto = {| dto_RoomId := RoomId room;
                dto_RoomName := RoomName room;
                dto_PlayerCount := Dictionary.Count (Players room);
                dto_State := Waiting;
                dto_HostUsername := Username host |}) ∧
  NoDup (dto_RoomId <$> GameService.GetAvailableRooms Scenario.two_rooms).
Proof.
  apply (GetAvailableRooms_lists_waiting_rooms Scenario.two_rooms).
  apply reachable_run, reachable_two_players.
Defined.

(* ================================================================== *)
(** ** Room codes *)

Lemma chars_of_string_of_chars l : chars_of (string_of_chars l) = l.
Proof. induction l as [|c l IH]; simpl; [done|]. unfold chars_of in *. by f_equal. Qed.

Lemma NextBelow_lt random i n : (0 < n)%nat → (NextBelow random i n < n)%nat.
Proof.
  intros Hn. unfold NextBelow.
  pose proof (Z.mod_pos_bound (random i) (Z.of_nat n)). lia.
Qed.

(** X19: a generated room code has six characters, all of them from the
    32-symbol alphabet, which leaves out 0, O, 1 and I. *)
Theorem GenerateRoomId_alphabet random :
  List.length (chars_of (GameService.GenerateRoomId random)) = 6%nat ∧
  Forall (λ ch, ch ∈ chars_of GameService.chars ∧
                ch ∉ ["0"; "O"; "1"; "I"]%char)
         (chars_of (GameService.GenerateRoomId random)).
Proof.
  unfold GameService.GenerateRoomId. rewrite chars_of_string_of_chars.
  split; [by rewrite length_fmap|].
  apply Forall_fmap, Forall_forall. intros i _. simpl.
  change (String.length GameService.chars) with 32%nat.
  pose proof (NextBelow_lt random i 32 ltac:(lia)) as Hlt.
  generalize dependent (NextBelow random i 32). intros n Hlt.
  assert (Forall (λ n, char_at GameService.chars n ∈ chars_of GameService.chars ∧
                       char_at GameService.chars n ∉ ["0"; "O"; "1"; "I"]%char)
                 (seq 0 32)) as Hall.
  { match goal with |- ?G => apply (bool_decide_unpack G) end. vm_compute. exact I. }
  rewrite Forall_forall in Hall. apply Hall. apply elem_of_seq. lia.
Qed.

(* ================================================================== *)
(** ** The board generators *)

Lemma insert_by_key_Permutation {A} kx (x : A) l :
  LetterGenerator.insert_by_key kx x l ≡ₚ (kx, x) :: l.
Proof.
  induction l as [|[ky y] l IH]; simpl; [done|].
  destruct (kx <? ky); [done|]. rewrite IH. apply Permutation_swap.
Qed.

Lemma OrderBy_Permutation {A} keys (source : list A) :
  LetterGenerator.OrderBy keys source ≡ₚ source.
Proof.
  unfold LetterGenerator.OrderBy.
  assert (∀ (l : list (nat * A)) acc,
            (foldl (λ acc '(i, x), LetterGenerator.insert_by_key (keys i) x acc)
                   acc l).*2 ≡ₚ acc.*2 ++ l.*2) as Hfold.
  { induction l as [|[i x] l IH]; intros acc; simpl.
    - by rewrite app_nil_r.
    - rewrite IH, insert_by_key_Permutation. simpl.
      by rewrite Permutation_middle. }
  rewrite Hfold. simpl.
  assert (∀ (f : nat → nat) (l : list A), (imap (λ i x, (f i, x)) l).*2 = l) as Himap.
  { intros f l. revert f. induction l as [|x l IH]; intros f; simpl; [done|].
    f_equal. apply IH. }
  by rewrite (Himap id).
Qed.

Lemma char_at_elem s n : (n < String.length s)%nat → char_at s n ∈ chars_of s.
Proof.
  revert n. induction s as [|c s IH]; intros n Hn; simpl in *; [lia|].
  unfold char_at, chars_of in *. destruct n as [|n]; simpl.
  - by left.
  - right. apply IH. lia.
Qed.

Lemma BoggleDice_faces :
  Forall (λ die, String.length die = 6%nat ∧ Forall is_upper_letter (chars_of die))
         LetterGenerator.BoggleDice.
Proof.
  repeat constructor; unfold is_upper_letter; simpl; lia.
Qed.

Lemma GenerateBoard_cells random :
  let dice := LetterGenerator.OrderBy (Next random) LetterGenerator.BoggleDice in
  cells (LetterGenerator.GenerateBoard random)
  = (λ k, char_at (nth k dice "")
            (NextBelow random (16 + k) (String.length (nth k dice ""))))
    <$> seq 0 16.
Proof.
  intros dice. unfold LetterGenerator.GenerateBoard. fold dice.
  clearbody dice. reflexivity.
Qed.

(** X20: [GenerateBoard] uses every die exactly once: the sixteen cells,
    row by row, show a face of the sixteen dice in some order, so every
    cell holds an upper-case letter. *)
Theorem GenerateBoard_rolls_every_die_once random :
  ∃ dice,
    dice ≡ₚ LetterGenerator.BoggleDice ∧
    List.length (cells (LetterGenerator.GenerateBoard random)) = 16%nat ∧
    ∀ k, (k < 16)%nat →
      ∃ die face,
        dice !! k = Some die ∧
        cells (LetterGenerator.GenerateBoard random) !! k = Some face ∧
        face ∈ chars_of die ∧ is_upper_letter face.
Proof.
  exists (LetterGenerator.OrderBy (Next random) LetterGenerator.BoggleDice).
  pose proof (OrderBy_Permutation (Next random) LetterGenerator.BoggleDice) as Hperm.
  split; [done|]. rewrite GenerateBoard_cells. cbv zeta.
  set (dice := LetterGenerator.OrderBy (Next random) LetterGenerator.BoggleDice) in *.
  split; [by rewrite length_fmap|].
  intros k Hk.
  assert (List.length dice = 16%nat) as Hlen by by rewrite Hperm.
  destruct (lookup_lt_is_Some_2 dice k) as [die Hdie]; [lia|].
  assert (die ∈ LetterGenerator.BoggleDice) as Hin.
  { rewrite <- Hperm. by eapply list_elem_of_lookup_2. }
  pose proof BoggleDice_faces as Hfaces. rewrite Forall_forall in Hfaces.
  destruct (Hfaces _ Hin) as [Hsix Hupper].
  assert (nth k dice "" = die) as Hnth by by apply nth_lookup_Some.
  exists die, (char_at die (NextBelow random (16 + k) (String.length die))).
  assert (char_at die (NextBelow random (16 + k) (String.length die))
          ∈ chars_of die) as Hface.
  { apply char_at_elem, NextBelow_lt. lia. }
  split; [done|]. split; [|split; [done|]].
  - rewrite list_lookup_fmap, lookup_seq_lt by done. simpl. by rewrite Hnth.
  - rewrite Forall_forall in Hupper. by apply Hupper.
Qed.

Lemma weightedPool_letters :
  List.length LetterGenerator._weightedPool = 98%nat ∧
  Forall is_upper_letter LetterGenerator._weightedPool ∧
  Forall (λ '(letter, weight),
            List.length (filter (λ ch, ch = letter) LetterGenerator._weightedPool)
            = weight)
         LetterGenerator.LetterWeights.
Proof.
  split; [reflexivity|]. split.
  - match goal with |- ?G => apply (bool_decide_unpack G) end. vm_compute. exact I.
  - match goal with |- ?G => apply (bool_decide_unpack G) end. vm_compute. exact I.
Qed.

(** X21: [GenerateBoardWeighted] fills a 4x4 board with letters of the
    weighted pool, so every cell holds an upper-case letter; the pool
    holds each letter as many times as its weight says, 98 in all. *)
Theorem GenerateBoardWeighted_draws_from_pool random :
  board_ok (LetterGenerator.GenerateBoardWeighted random) ∧
  Forall (λ ch, ch ∈ LetterGenerator._weightedPool ∧ is_upper_letter ch)
         (cells (LetterGenerator.GenerateBoardWeighted random)) ∧
  List.length LetterGenerator._weightedPool = 98%nat ∧
  Forall (λ '(letter, weight),
            List.length (filter (λ ch, ch = letter) LetterGenerator._weightedPool)
            = weight)
         LetterGenerator.LetterWeights.
Proof.
  destruct weightedPool_letters as (Hlen & Hupper & Hweights).
  assert (cells (LetterGenerator.GenerateBoardWeighted random)
          = (λ k, default zero
                    (LetterGenerator._weightedPool
                       !! NextBelow random k (List.length LetterGenerator._weightedPool)))
            <$> seq 0 16) as Hcells by reflexivity.
  split; [|split; [|done]].
  - unfold board_ok. split; [reflexivity|]. split; [reflexivity|].
    by rewrite Hcells, length_fmap.
  - rewrite Hcells. apply Forall_fmap, Forall_forall. intros k _. cbv beta.
    unfold compose.
    pose proof (NextBelow_lt random k (List.length LetterGenerator._weightedPool))
      as Hlt.
    destruct (lookup_lt_is_Some_2 LetterGenerator._weightedPool
                (NextBelow random k (List.length LetterGenerator._weightedPool)))
      as [ch Hch]; [apply Hlt; rewrite Hlen; lia|].
    rewrite Hch. cbn [default from_option id]. split; [by eapply list_elem_of_lookup_2|].
    rewrite Forall_forall in Hupper. apply Hupper. by eapply list_elem_of_lookup_2.
Qed.

(** X22: [ToJaggedArray] keeps the shape and the cells: the result has
    one row per row of the array, every row has one entry per column, and
    entry [j] of row [i] is cell [(i, j)]. *)
Theorem ToJaggedArray_keeps_cells b i j :
  (i < GetLength0 b)%nat → (j < GetLength1 b)%nat →
  List.length (LetterGenerator.ToJaggedArray b) = GetLength0 b ∧
  Forall (λ row, List.length row = GetLength1 b) (LetterGenerator.ToJaggedArray b) ∧
  (LetterGenerator.ToJaggedArray b !! i) ≫= (λ row, row !! j)
  = Some (Array2D_get b i j).
Proof.
  intros Hi Hj. unfold LetterGenerator.ToJaggedArray. split; [|split].
  - by rewrite length_fmap, length_seq.
  - apply Forall_fmap, Forall_forall. intros r _. simpl.
    by rewrite length_fmap, length_seq.
  - rewrite list_lookup_fmap, lookup_seq_lt by done. simpl.
    by rewrite list_lookup_fmap, lookup_seq_lt.
Qed.

Lemma ToJaggedArray_keeps_cells_witness :
  let b := LetterGenerator.GenerateBoard Scenario.dice_a in
  List.length (LetterGenerator.ToJaggedArray b) = GetLength0 b ∧
  Forall (λ row, List.length row = GetLength1 b) (LetterGenerator.ToJaggedArray b) ∧
  (LetterGenerator.ToJaggedArray b !! 2%nat) ≫= (λ row, row !! 3%nat)
  = Some (Array2D_get b 2 3).
Proof.
  apply (ToJaggedArray_keeps_cells
           (LetterGenerator.GenerateBoard Scenario.dice_a) 2 3).
  - vm_compute. lia.
  - vm_compute. lia.
Defined.

(* ================================================================== *)
(** ** Leaving through the hub *)



(** X24: the hub's [LeaveRoom] answers "Not in a room" and changes
    nothing when the session resolves to no room, also when the session
    is still indexed to a code whose room is gone; a disconnect in that
    state removes the stale index entry and sends nothing. *)
Theorem hub_LeaveRoom_outside_any_room svc c now :
  GameService.GetRoomByConnectionId c svc = None →
  GameHub.LeaveRoom c now svc = (GameHub.AckFailure "Not in a room", [], svc) ∧
  GameHub.OnDisconnectedAsync c now svc
  = (Returned (), [], mkGameService (_rooms svc) (delete c (_playerRooms svc))) ∧
  GameService.GetRoomByConnectionId c (GameHub.OnDisconnectedAsync c now svc).2 = None.
Proof.
  intros Hnone. unfold GameHub.LeaveRoom, GameHub.OnDisconnectedAsync.
  rewrite Hnone. split; [done|].
  unfold GameService.GetRoomByConnectionId, GameService.GetRoom in *.
  unfold GameService.LeaveRoom.
  destruct (_playerRooms svc !! c) as [id|] eqn:Ei; simpl.
  - rewrite Hnone. simpl. split; [done|]. by rewrite lookup_delete_eq.
  - rewrite Ei. split; [|done]. do 2 f_equal. destruct svc as [rooms index].
    simpl in *. f_equal. symmetry. by apply delete_id.
Qed.

Lemma hub_LeaveRoom_outside_any_room_witness :
  GameHub.LeaveRoom "c1" 0 Scenario.orphaned
  = (GameHub.AckFailure "Not in a room", [], Scenario.orphaned) ∧
  GameHub.OnDisconnectedAsync "c1" 0 Scenario.orphaned
  = (Returned (), [],
     mkGameService (_rooms Scenario.orphaned)
                   (delete "c1" (_playerRooms Scenario.orphaned))) ∧
  GameService.GetRoomByConnectionId "c1"
    (GameHub.OnDisconnectedAsync "c1" 0 Scenario.orphaned).2 = None.
Proof.
  apply (hub_LeaveRoom_outside_any_room Scenario.orphaned "c1" 0).
  vm_compute. reflexivity.
Defined.

(** X25: [SubmitWord] throws exactly when the session resolves to a room
    in progress that holds no player object for it; the exception is the
    dictionary's KeyNotFoundException, and nothing is sent or changed. *)
Theorem SubmitWord_throws_iff_no_player svc c word :
  ((∃ e, (GameHub.SubmitWord c word svc).1.1 = Threw e) ↔
   ∃ room, GameService.GetRoomByConnectionId c svc = Some room ∧
           State room = InProgress ∧ player_of room c = None) ∧
  ((∃ e, (GameHub.SubmitWord c word svc).1.1 = Threw e) →
   GameHub.SubmitWord c word svc = (Threw "KeyNotFoundException", [], svc)).
Proof.
  unfold GameHub.SubmitWord, player_of.
  destruct (GameService.GetRoomByConnectionId c svc) as [room|] eqn:E.
  - case_bool_decide as Hst.
    + split; [|by intros [? ?]]. split; [by intros [? ?]|].
      intros (r & [= <-] & Hin & _). done.
    + destruct (Dictionary.TryGetValue (Players room) c) as [player|] eqn:Ep.
      * split.
        -- split; [case_bool_decide; by intros [? ?]|].
           intros (r & [= <-] & _ & Hp). congruence.
        -- case_bool_decide; by intros [? ?].
      * split; [|done]. split; [|by eexists].
        intros _. exists room. split; [done|]. split; [|done].
        by destruct (State room).
  - split; [|by intros [? ?]]. split; [by intros [? ?]|].
    by intros (r & ? & _).
Qed.

Lemma SubmitWord_throws_iff_no_player_witness :
  GameHub.SubmitWord "c1" "cat" replaced_room
  = (Threw "KeyNotFoundException", [], replaced_room).
Proof.
  apply (proj2 (SubmitWord_throws_iff_no_player replaced_room "c1" "cat")).
  apply (proj1 (SubmitWord_throws_iff_no_player replaced_room "c1" "cat")).
  destruct (GameService.GetRoomByConnectionId "c1" replaced_room)
    as [room|] eqn:E; [|vm_compute in E; discriminate].
  exists room. split; [reflexivity|].
  vm_compute in E. injection E as <-. split; reflexivity.
Defined.
